(** * prysm: encircled energy (psf.py) and through-focus MTF utilities (mtf_utils.py)

    A shallow embedding of the two modules and the properties of their
    documented behaviour.

    Numbers.  Python floats and ints are embedded as exact rationals in
    canonical form ([Qc]): Python's numeric [==] (under which [1 == 1.0], the
    equality dictionaries and [list.index] use) is Leibniz equality.  Rounding,
    [inf] and signed zeros are outside this model; [nan] appears only where the
    source can produce one from exact data (the mean of an empty axis) and is
    embedded as [None].

    Effects.  Methods that mutate [self] are state transformers that return a
    [result] together with the state: an exception keeps the assignments made
    before it was raised. *)

From Stdlib Require Import String Ascii.
From Stdlib Require Import ZArith QArith Qcanon Qround List Bool Lia.
Import ListNotations.

Set Implicit Arguments.

(* ------------------------------------------------------------------------- *)
(** ** The Python runtime: exceptions, results, stateful computations *)
(* ------------------------------------------------------------------------- *)

Module Py.

Inductive exn : Type :=
| ValueError (msg : string)
| TypeError (msg : string)
| IndexError
| KeyError
| AttributeError (attr : string)
| ZeroDivisionError
| AxisError (axis ndim : nat)
| NotImplementedError (msg : string).

Inductive result (A : Type) : Type :=
| Ok (a : A)
| Raise (e : exn).

Arguments Ok {A} a.
Arguments Raise {A} e.

Definition rbind {A B : Type} (r : result A) (k : A -> result B) : result B :=
  match r with
  | Ok a => k a
  | Raise e => Raise e
  end.

Definition rmap {A B : Type} (f : A -> B) (r : result A) : result B :=
  rbind r (fun a => Ok (f a)).

Definition is_ok {A : Type} (r : result A) : bool :=
  match r with Ok _ => true | Raise _ => false end.

(** A method on an object of state [S]: it returns or raises, and in both
    cases leaves a state behind. *)
Definition M (S A : Type) : Type := S -> result A * S.

Definition ret {S A : Type} (a : A) : M S A := fun s => (Ok a, s).

Definition raise {S A : Type} (e : exn) : M S A := fun s => (Raise e, s).

Definition bind {S A B : Type} (m : M S A) (k : A -> M S B) : M S B :=
  fun s =>
    match m s with
    | (Ok a, s') => k a s'
    | (Raise e, s') => (Raise e, s')
    end.

Definition lift {S A : Type} (r : result A) : M S A := fun s => (r, s).

(** Python numbers that reach an identity test ([is]): the int and float
    objects are kept apart, because [0.0 is 0] is false while [0.0 == 0] is
    true. *)
Inductive pynum : Type :=
| PyInt (z : Z)
| PyFloat (q : Qc).

(** Integer literals and ints read as numbers. *)
Definition of_int (z : Z) : Qc := Q2Qc (inject_Z z).

Definition to_num (v : pynum) : Qc :=
  match v with
  | PyInt z => of_int z
  | PyFloat q => q
  end.

(** [v is 0]: CPython keeps one object for the int 0, so the test holds
    of the int 0 and of nothing else. *)
Definition is_int_zero (v : pynum) : bool :=
  match v with
  | PyInt 0 => true
  | _ => false
  end.

(** [a / b] on Python scalars. *)
Definition truediv (a b : Qc) : result Qc :=
  if Qc_eq_dec b 0 then Raise ZeroDivisionError else Ok (a / b)%Qc.

(** [l[i]] on a sequence, with Python's negative indices. *)
Definition getitem {A : Type} (l : list A) (i : Z) : result A :=
  let n := Z.of_nat (length l) in
  let j := if (i <? 0)%Z then (n + i)%Z else i in
  if (j <? 0)%Z then Raise IndexError
  else match nth_error l (Z.to_nat j) with
       | Some a => Ok a
       | None => Raise IndexError
       end.

(** [v in l] and [l.index(v)] on lists of numbers. *)
Definition list_contains (v : Qc) (l : list Qc) : bool :=
  existsb (fun w => if Qc_eq_dec w v then true else false) l.

Fixpoint list_index (v : Qc) (l : list Qc) : option nat :=
  match l with
  | [] => None
  | w :: l' => if Qc_eq_dec w v then Some 0%nat
               else option_map S (list_index v l')
  end.

(** A [dict] with numeric keys, in insertion order (the order [keys()] and
    [values()] list it in). *)
Definition dict : Type := list (Qc * Qc).

Definition keys (d : dict) : list Qc := map fst d.
Definition values (d : dict) : list Qc := map snd d.

Fixpoint dict_get (k : Qc) (d : dict) : option Qc :=
  match d with
  | [] => None
  | (k', v) :: d' => if Qc_eq_dec k' k then Some v else dict_get k d'
  end.

Definition dict_mem (k : Qc) (d : dict) : bool :=
  match dict_get k d with Some _ => true | None => false end.

(** [d[k] = v]: an existing key keeps its place, a new one goes last. *)
Fixpoint dict_set (k v : Qc) (d : dict) : dict :=
  match d with
  | [] => [(k, v)]
  | (k', v') :: d' =>
      if Qc_eq_dec k' k then (k', v) :: d' else (k', v') :: dict_set k v d'
  end.

(** [str.lower()] on ASCII text. *)
Definition lower_ascii (c : ascii) : ascii :=
  let n := nat_of_ascii c in
  if andb (65 <=? n)%nat (n <=? 90)%nat then ascii_of_nat (n + 32) else c.

Fixpoint lower (s : string) : string :=
  match s with
  | EmptyString => EmptyString
  | String c s' => String (lower_ascii c) (lower s')
  end.

(** [raise NotImplemented(msg)]: [NotImplemented] is the builtin constant,
    not the exception class [NotImplementedError]; the call is evaluated
    before anything is raised and fails because the constant is not
    callable. *)
Definition call_NotImplemented (msg : string) : exn :=
  TypeError "'NotImplementedType' object is not callable".

End Py.

Export Py.

Declare Scope py_scope.
Delimit Scope py_scope with py.
Notation "x <- m ;; k" := (bind m (fun x => k))
  (at level 61, m at next level, right associativity) : py_scope.
Notation "x <~ r ;; k" := (rbind r (fun x => k))
  (at level 61, r at next level, right associativity) : py_scope.

(* ------------------------------------------------------------------------- *)
(** ** The array engine (numpy), on nested lists *)
(* ------------------------------------------------------------------------- *)

Module Np.

Local Open Scope Qc_scope.

Definition arr1 : Type := list Qc.
Definition arr2 : Type := list (list Qc).
Definition arr3 : Type := list (list (list Qc)).

Fixpoint map2 {A B C : Type} (f : A -> B -> C) (a : list A) (b : list B)
  : list C :=
  match a, b with
  | u :: a', v :: b' => f u v :: map2 f a' b'
  | _, _ => []
  end.

(** Elementwise operations on two-dimensional arrays of one shape (the MTF
    and its frequency mesh share their shape; broadcasting between unequal
    shapes is not modelled). *)
Definition arr_map (f : Qc -> Qc) (a : arr2) : arr2 := map (map f) a.
Definition arr_scale (c : Qc) (a : arr2) : arr2 := arr_map (fun v => c * v) a.
Definition arr_mul (a b : arr2) : arr2 := map2 (map2 Qcmult) a b.
Definition arr_div (a b : arr2) : arr2 := map2 (map2 Qcdiv) a b.
Definition arr_add (a b : arr2) : arr2 := map2 (map2 Qcplus) a b.

Definition sum1 (v : arr1) : Qc := fold_right Qcplus 0 v.
Definition arr_sum (a : arr2) : Qc := sum1 (map sum1 a).

(** [meshgrid(x, y)]: both results have shape [(len y, len x)]. *)
Definition meshgrid (x y : arr1) : arr2 * arr2 :=
  (map (fun _ => x) y, map (fun yi => map (fun _ => yi) x) y).

(** [a[i, j]] with non-negative indices. *)
Definition getitem2 (a : arr2) (i j : nat) : result Qc :=
  match nth_error a i with
  | None => Raise IndexError
  | Some row => match nth_error row j with
                | None => Raise IndexError
                | Some v => Ok v
                end
  end.

(** [a[a == 0] = c] *)
Definition replace_zeros (c : Qc) (a : arr2) : arr2 :=
  arr_map (fun v => if Qc_eq_dec v 0 then c else v) a.

(** [linspace(start, stop, num)] *)
Definition linspace (start stop : Qc) (num : nat) : arr1 :=
  match num with
  | O => []
  | S O => [start]
  | S n =>
      let step := (stop - start) / of_int (Z.of_nat n) in
      map (fun i => start + of_int (Z.of_nat i) * step) (seq 0 num)
  end.

End Np.

Export Np.

(* ------------------------------------------------------------------------- *)
(** ** External collaborators *)
(* ------------------------------------------------------------------------- *)

(** The numerical primitives the source imports: [e.pi] and [e.sqrt] of the
    math engine, the Bessel functions [special.j0] and [special.j1], and the
    scalar minimiser [optimize.golden].  The minimiser receives an objective
    that may change the state of the object it closes over, and may raise.
    The two laws are the values of the Bessel functions at the origin. *)
Class NumericPrimitives : Type := {
  pi : Qc;
  sqrt : Qc -> Qc;
  j0 : Qc -> Qc;
  j1 : Qc -> Qc;
  golden : forall S : Type, (Qc -> M S Qc) -> M S Qc;
  j0_0 : j0 0 = 1;
  j1_0 : j1 0 = 0
}.

(** The same primitives with another minimiser. *)
Definition with_golden (NP : NumericPrimitives)
  (g : forall S : Type, (Qc -> M S Qc) -> M S Qc) : NumericPrimitives :=
  {| pi := pi; sqrt := sqrt; j0 := j0; j1 := j1; golden := g;
     j0_0 := j0_0; j1_0 := j1_0 |}.

Module Otf.

(** The [MTF] object of otf.py, with the attributes psf.py reads. *)
Record MTF : Type := mkMTF {
  x : arr1;
  y : arr1;
  data : arr2
}.

End Otf.

(* ------------------------------------------------------------------------- *)
(** ** psf.py *)
(* ------------------------------------------------------------------------- *)

Module Psf.

Local Open Scope Qc_scope.
Local Open Scope py_scope.

Definition FIRST_AIRY_ZERO : Qc := Q2Qc (1220 # 1000).
Definition SECOND_AIRY_ZERO : Qc := Q2Qc (2233 # 1000).
Definition THIRD_AIRY_ZERO : Qc := Q2Qc (3238 # 1000).
Definition FIRST_AIRY_ENCIRCLED : Qc :=
  Q2Qc (8377850436212378 # 10000000000000000).
Definition SECOND_AIRY_ENCIRCLED : Qc :=
  Q2Qc (9099305350850819 # 10000000000000000).
Definition THIRD_AIRY_ENCIRCLED : Qc :=
  Q2Qc (9376474743695488 # 10000000000000000).

Definition AIRYDATA (ring : nat) : option (Qc * Qc) :=
  match ring with
  | 1%nat => Some (FIRST_AIRY_ZERO, FIRST_AIRY_ENCIRCLED)
  | 2%nat => Some (SECOND_AIRY_ZERO, SECOND_AIRY_ENCIRCLED)
  | 3%nat => Some (THIRD_AIRY_ZERO, THIRD_AIRY_ENCIRCLED)
  | _ => None
  end.

(** The literal [1e-99]. *)
Definition eps : Qc := Q2Qc (1 # (10 ^ 99)).

(** The literal [1e-5]. *)
Definition plot_start : Qc := Q2Qc (1 # 100000).

(** A [PSF] instance: the grid and data of [Convolvable], the memo of
    encircled energies [_ee], the lazily built MTF with its radial frequency
    field and spacings, and the attributes [fno] and [wavelength] that
    [from_pupil] attaches ([None] while absent). *)
Record PSF : Type := mkPSF {
  x : arr1;
  y : arr1;
  data : arr2;
  _ee : dict;
  _mtf : option Otf.MTF;
  _nu_p : option arr2;
  _dnx : option Qc;
  _dny : option Qc;
  fno : option Qc;
  wavelength : option Qc
}.

Definition __init__ (x y : arr1) (data : arr2) : PSF :=
  {| x := x; y := y; data := data;
     _ee := []; _mtf := None; _nu_p := None; _dnx := None; _dny := None;
     fno := None; wavelength := None |}.

Definition set_ee (d : dict) (self : PSF) : PSF :=
  {| x := x self; y := y self; data := data self;
     _ee := d; _mtf := _mtf self; _nu_p := _nu_p self;
     _dnx := _dnx self; _dny := _dny self;
     fno := fno self; wavelength := wavelength self |}.

Definition set_mtf (m : Otf.MTF) (self : PSF) : PSF :=
  {| x := x self; y := y self; data := data self;
     _ee := _ee self; _mtf := Some m; _nu_p := _nu_p self;
     _dnx := _dnx self; _dny := _dny self;
     fno := fno self; wavelength := wavelength self |}.

Definition set_nu_p (nu : arr2) (self : PSF) : PSF :=
  {| x := x self; y := y self; data := data self;
     _ee := _ee self; _mtf := _mtf self; _nu_p := Some nu;
     _dnx := _dnx self; _dny := _dny self;
     fno := fno self; wavelength := wavelength self |}.

Definition set_dn (dnx dny : Qc) (self : PSF) : PSF :=
  {| x := x self; y := y self; data := data self;
     _ee := _ee self; _mtf := _mtf self; _nu_p := _nu_p self;
     _dnx := Some dnx; _dny := Some dny;
     fno := fno self; wavelength := wavelength self |}.

(** The collaborators of psf.py whose code lives in other modules:
    [MTF.from_psf] of otf.py and [sort_xy] of util.py. *)
Class Collaborators : Type := {
  from_psf : PSF -> Otf.MTF;
  sort_xy : list Qc -> list Qc -> list Qc * list Qc
}.

Inductive radius_arg : Type :=
| Scalar (r : Qc)
| Iterable (rs : list Qc).

Inductive ee_value : Type :=
| Float (e : Qc)
| Array (es : list Qc).

Record plot_data : Type := mkPlot {
  xx : list Qc;
  yy : ee_value;
  xlim : option pynum
}.

Section Engine.

Context {NP : NumericPrimitives} {CO : Collaborators}.

Definition sq (v : Qc) : Qc := v * v.

(** [_encircled_energy_core], psf.py lines 399-423. *)
Definition _encircled_energy_core (mtf_data : arr2) (radius : Qc)
  (nu_p : arr2) (dx dy : Qc) : Qc :=
  let integration_fourier :=
    arr_div (arr_map j1 (arr_scale (of_int 2 * pi * radius) nu_p)) nu_p in
  let dat := arr_mul mtf_data integration_fourier in
  radius * arr_sum dat * dx * dy.

(** Lines 99-105 of [encircled_energy]: the MTF, the radial frequencies with
    their zeros replaced, and the two spacings are built on first use.  The
    spacings are one tuple assignment: an index out of range leaves both
    unset, after [_mtf] and [_nu_p] have been assigned. *)
Definition lazy_mtf : M PSF unit :=
  fun self =>
    match _mtf self with
    | Some _ => (Ok tt, self)
    | None =>
        let m := from_psf self in
        let self1 := set_mtf m self in
        let (nx, ny) := meshgrid (Otf.x m) (Otf.y m) in
        let nu := arr_map sqrt (arr_add (arr_map sq nx) (arr_map sq ny)) in
        let self2 := set_nu_p (replace_zeros eps nu) self1 in
        match (a <~ getitem2 ny 1 0 ;;
               b <~ getitem2 ny 0 0 ;;
               c <~ getitem2 nx 0 1 ;;
               d <~ getitem2 nx 0 0 ;;
               Ok (a - b, c - d)) with
        | Ok (dnx, dny) => (Ok tt, set_dn dnx dny self2)
        | Raise e => (Raise e, self2)
        end
    end.

(** [self._ee[r]] *)
Definition ee_getitem (r : Qc) : M PSF Qc :=
  fun self =>
    match dict_get r (_ee self) with
    | Some v => (Ok v, self)
    | None => (Raise KeyError, self)
    end.

(** The body the source writes twice (lines 110-116 and 119-125): compute
    and store the energy of a radius that is not yet a key, then read the
    entry.  [r / 1e3] divides by a non-zero literal. *)
Definition ee_entry (r : Qc) : M PSF Qc :=
  fun self =>
    if negb (dict_mem r (_ee self)) then
      match _mtf self, _nu_p self, _dnx self, _dny self with
      | Some m, Some nu, Some dx, Some dy =>
          let v := _encircled_energy_core (Otf.data m) (r / of_int 1000) nu dx dy in
          ee_getitem r (set_ee (dict_set r v (_ee self)) self)
      | _, _, _, _ =>
          (Raise (TypeError "unsupported operand type(s): 'NoneType'"), self)
      end
    else ee_getitem r self.

(** The loop of lines 108-116, with [out] the list built so far. *)
Fixpoint ee_loop (radius : list Qc) (out : list Qc) : M PSF (list Qc) :=
  match radius with
  | [] => ret out
  | r :: rest => v <- ee_entry r ;; ee_loop rest (out ++ [v])
  end.

(** [PSF.encircled_energy], psf.py lines 70-125. *)
Definition encircled_energy (radius : radius_arg) : M PSF ee_value :=
  _ <- lazy_mtf ;;
  match radius with
  | Iterable rs => out <- ee_loop rs [] ;; ret (Array out)
  | Scalar r => v <- ee_entry r ;; ret (Float v)
  end.

(** [PSF.ee_radius], psf.py lines 127-139. *)
Definition ee_radius (energy : Qc) : M PSF Qc :=
  fun self =>
    let k := keys (_ee self) in
    let v := values (_ee self) in
    if list_contains energy v then
      match list_index energy v with
      | Some idx => lift (getitem k (Z.of_nat idx)) self
      | None => (Raise (ValueError "is not in list"), self)
      end
    else
      let optfcn (x : Qc) : M PSF Qc :=
        e <- encircled_energy (Scalar x) ;;
        match e with
        | Float e => ret (sq (e - energy))
        | Array _ => raise (TypeError "objective is not a scalar")
        end in
      golden optfcn self.

(** [_analytical_encircled_energy], psf.py lines 426-445. *)
Definition _analytical_encircled_energy (fno wavelength points : Qc)
  : result Qc :=
  q <~ truediv (points * pi) fno ;;
  p <~ truediv q wavelength ;;
  Ok (1 - sq (j0 p) - sq (j1 p)).

(** [_inverse_analytic_encircled_energy], psf.py lines 448-452.  The
    objective closes over no object: the minimiser runs on the unit state. *)
Definition _inverse_analytic_encircled_energy (fno wavelength energy : Qc)
  : result Qc :=
  let optfcn (x : Qc) : M unit Qc :=
    lift (e <~ _analytical_encircled_energy fno wavelength x ;;
          Ok (sq (e - energy))) in
  fst (golden optfcn tt).

(** [self.fno] and [self.wavelength] *)
Definition getattr (name : string) (a : option Qc) : result Qc :=
  match a with
  | Some v => Ok v
  | None => Raise (AttributeError name)
  end.

(** [PSF.ee_radius_diffraction], psf.py lines 141-143. *)
Definition ee_radius_diffraction (energy : Qc) : M PSF Qc :=
  fun self =>
    lift (f <~ getattr "fno" (fno self) ;;
          w <~ getattr "wavelength" (wavelength self) ;;
          _inverse_analytic_encircled_energy f w energy) self.

(** [PSF.ee_radius_ratio_to_diffraction], psf.py lines 145-149. *)
Definition ee_radius_ratio_to_diffraction (energy : Qc) : M PSF Qc :=
  self_rad <- ee_radius energy ;;
  diff_rad <- (fun self =>
    lift (f <~ getattr "fno" (fno self) ;;
          w <~ getattr "wavelength" (wavelength self) ;;
          _inverse_analytic_encircled_energy f w energy) self) ;;
  lift (truediv self_rad diff_rad).

(** [PSF.plot_encircled_energy], psf.py lines 153-197, up to the data handed
    to the plotting layer: the abscissae, the ordinates and the upper axis
    limit.  [len(self._ee) is not 0] compares two small ints. *)
Definition plot_encircled_energy (axlim : option pynum) (npts : nat)
  : M PSF plot_data :=
  match axlim with
  | None =>
      fun self =>
        if negb (length (_ee self) =? 0)%nat then
          let (xs, ys) := sort_xy (keys (_ee self)) (values (_ee self)) in
          (Ok (mkPlot xs (Array ys) axlim), self)
        else
          (Raise (ValueError "if no values for encircled energy have been computed, axlim must be provided"), self)
  | Some a =>
      if is_int_zero a then
        raise (ValueError "computing from 0 to 0 is stupid")
      else
        let xs := linspace plot_start (to_num a) npts in
        ys <- encircled_energy (Iterable xs) ;;
        ret (mkPlot xs ys axlim)
  end.

End Engine.

End Psf.

(* ------------------------------------------------------------------------- *)
(** ** Reductions along an axis *)
(* ------------------------------------------------------------------------- *)

Module Reduce.

Local Open Scope Qc_scope.
Local Open Scope py_scope.

Definition Qcltb (a b : Qc) : bool := if Qclt_le_dec a b then true else false.

Definition Qcmax (a b : Qc) : Qc := if Qcltb a b then b else a.
Definition Qcabs (a : Qc) : Qc := if Qcltb a 0 then - a else a.

(** One step of a running arg-reduction: the entry seen at position [k]
    replaces the best one so far only when it is strictly better, so that the
    first best position is the one reported. *)
Definition better (lt : Qc -> Qc -> bool) (k : nat) (v : Qc) (b : Qc * nat)
  : Qc * nat :=
  if lt (fst b) v then (v, k) else b.

Definition gt_max : Qc -> Qc -> bool := Qcltb.
Definition gt_min : Qc -> Qc -> bool := fun b v => Qcltb v b.

Definition start (v : Qc) : Qc * nat := (v, 0%nat).

(** Along a vector. *)
Fixpoint scan0 (lt : Qc -> Qc -> bool) (k : nat) (v : arr1) (b : Qc * nat)
  : Qc * nat :=
  match v with
  | [] => b
  | w :: v' => scan0 lt (S k) v' (better lt k w b)
  end.

Definition arg1 (lt : Qc -> Qc -> bool) (v : arr1) : result nat :=
  match v with
  | [] => Raise (ValueError "attempt to get an arg-reduction of an empty sequence")
  | w :: v' => Ok (snd (scan0 lt 1 v' (start w)))
  end.

(** Along axis 0 of a matrix: the rows are folded into one row of running
    bests. *)
Fixpoint scan1 (lt : Qc -> Qc -> bool) (k : nat) (rows : arr2)
  (b : list (Qc * nat)) : list (Qc * nat) :=
  match rows with
  | [] => b
  | r :: rows' => scan1 lt (S k) rows' (map2 (better lt k) r b)
  end.

Definition arg_axis0_2d (lt : Qc -> Qc -> bool) (a : arr2)
  : result (list nat) :=
  match a with
  | [] => Raise (ValueError "attempt to get an arg-reduction of an empty sequence")
  | r :: rows => Ok (map snd (scan1 lt 1 rows (map start r)))
  end.

(** Along axis 0 of a cube: the planes are folded into one plane of running
    bests.  A cube without a plane is taken to have non-empty trailing
    axes. *)
Fixpoint scan2 (lt : Qc -> Qc -> bool) (k : nat) (planes : arr3)
  (b : list (list (Qc * nat))) : list (list (Qc * nat)) :=
  match planes with
  | [] => b
  | p :: planes' => scan2 lt (S k) planes' (map2 (map2 (better lt k)) p b)
  end.

Definition arg_axis0_3d (lt : Qc -> Qc -> bool) (c : arr3)
  : result (list (list nat)) :=
  match c with
  | [] => Raise (ValueError "attempt to get an arg-reduction of an empty sequence")
  | p :: planes => Ok (map (map snd) (scan2 lt 1 planes (map (map start) p)))
  end.

(** [a.max(axis=0)] of a matrix. *)
Definition max_axis0 (a : arr2) : result arr1 :=
  match a with
  | [] => Raise (ValueError "zero-size array to reduction operation maximum which has no identity")
  | r :: rows => Ok (fold_left (fun b r' => map2 Qcmax b r') rows r)
  end.

Fixpoint mapM {A B : Type} (f : A -> result B) (l : list A)
  : result (list B) :=
  match l with
  | [] => Ok []
  | a :: l' => b <~ f a ;; bs <~ mapM f l' ;; Ok (b :: bs)
  end.

(** Arrays of dimension one or two, and the index arrays that arg-reductions
    over them return. *)
Inductive ndarray : Type :=
| Nd1 (v : arr1)
| Nd2 (a : arr2).

Inductive ndindex : Type :=
| Ix0 (i : nat)
| Ix1 (v : list nat).

Definition ndim (a : ndarray) : nat :=
  match a with Nd1 _ => 1 | Nd2 _ => 2 end.

(** [a.argmin(axis=axis)]: the axis must exist. *)
Definition argmin (a : ndarray) (axis : nat) : result ndindex :=
  match a, axis with
  | Nd1 v, O => rmap Ix0 (arg1 gt_min v)
  | Nd2 m, O => rmap Ix1 (arg_axis0_2d gt_min m)
  | Nd2 m, S O => rmap Ix1 (mapM (arg1 gt_min) m)
  | _, _ => Raise (AxisError axis (ndim a))
  end.

(** [a.mean()] of a vector of indices: the mean of no number is [nan]. *)
Definition mean (v : list nat) : option Qc :=
  match v with
  | [] => None
  | _ => Some (of_int (Z.of_nat (fold_right Nat.add 0%nat v))
               / of_int (Z.of_nat (length v)))
  end.

(** [searchsorted(a, v)] on an ascending vector: the number of entries
    below [v]. *)
Definition searchsorted (a : arr1) (v : Qc) : nat :=
  length (filter (fun w => Qcltb w v) a).

End Reduce.

Export Reduce.

(* ------------------------------------------------------------------------- *)
(** ** mtf_utils.py *)
(* ------------------------------------------------------------------------- *)

Module MtfUtils.

Local Open Scope Qc_scope.
Local Open Scope py_scope.

(** The cube of MTF against focus, field and frequency: [data] has shape
    (focus, field, freq). *)
Record MTFvFvF : Type := mkMTFvFvF {
  data : arr3;
  focus : arr1;
  field : arr1;
  freq : arr1;
  azimuth : string
}.

(** Modelled from the spec: [floor] and [ceil] of mathops.py, which is not
    among the sources, are the integer floor and ceiling of the spec's
    interpolation formula; applied to [nan] (here [None]) they fail. *)
Definition floor (idx : option Qc) : result Z :=
  match idx with
  | Some q => Ok (Qfloor q)
  | None => Raise (ValueError "cannot convert float NaN to integer")
  end.

Definition ceil (idx : option Qc) : result Z :=
  match idx with
  | Some q => Ok (Qceiling q)
  | None => Raise (ValueError "cannot convert float NaN to integer")
  end.

(** [idx % 1] *)
Definition mod1 (q : Qc) : Qc := q - of_int (Qfloor q).

Definition half : Qc := Q2Qc (1 # 2).

(** [data[:, i, :]] *)
Definition take_field (c : arr3) (i : nat) : result arr2 :=
  mapM (fun plane => match nth_error plane i with
                     | Some row => Ok row
                     | None => Raise IndexError
                     end) c.

(** [data[:, arange(data.shape[1]), idx_freq]]: the two index arrays are
    broadcast against each other, so that field [i] reads frequency
    [idx_freq[i]], or the one frequency of a scalar or one-element index. *)
Definition pick_freq (idx_freq : ndindex) (n_field i : nat) : result nat :=
  match idx_freq with
  | Ix0 j => Ok j
  | Ix1 [j] => Ok j
  | Ix1 js =>
      if (length js =? n_field)%nat then
        match nth_error js i with
        | Some j => Ok j
        | None => Raise IndexError
        end
      else Raise IndexError
  end.

Definition take_freqs (c : arr3) (idx_freq : ndindex) : result arr2 :=
  let n_field := length (hd [] c) in
  mapM (fun plane =>
          mapM (fun i =>
                  j <~ pick_freq idx_freq n_field i ;;
                  match nth_error (nth i plane []) j with
                  | Some v => Ok v
                  | None => Raise IndexError
                  end) (seq 0 n_field)) c.

(** Lines 213-219 of [trace_focus]: one fractional index resolved between
    the two focus samples that bracket it. *)
Definition interpolate (focus : arr1) (idx : option Qc) : result Qc :=
  li <~ floor idx ;;
  ri <~ ceil idx ;;
  lf <~ getitem focus li ;;
  rf <~ getitem focus ri ;;
  let diff := rf - lf in
  match idx with
  | Some q => let part := mod1 q in Ok (lf + diff * part)
  | None => Raise (ValueError "cannot convert float NaN to integer")
  end.

(** [MTFvFvF.trace_focus], mtf_utils.py lines 158-223. *)
Definition trace_focus (self : MTFvFvF) (algorithm : string)
  : result (arr1 * arr1) :=
  if String.eqb algorithm "0.5" then
    let idx_axis := searchsorted (field self) 0 in
    on_axis <~ take_field (data self) idx_axis ;;
    peak <~ max_axis0 on_axis ;;
    idx_freq <~ argmin (Nd1 (map (fun v => Qcabs (v - half)) peak)) 1 ;;
    picked <~ take_freqs (data self) idx_freq ;;
    focus_idx <~ arg_axis0_2d gt_max picked ;;
    out <~ mapM (fun i => getitem (focus self) (Z.of_nat i)) focus_idx ;;
    Ok (out, field self)
  else if orb (String.eqb (lower algorithm) "avg")
              (String.eqb (lower algorithm) "average") then
    f0 <~ getitem (freq self) 0 ;;
    avg_idxs <~
      (if Qc_eq_dec f0 0 then
         rmap (fun a => map mean (map (@tl nat) a))
              (arg_axis0_3d gt_max (data self))
       else
         rmap (map mean) (arg_axis0_3d gt_max (data self))) ;;
    focus_out <~ mapM (interpolate (focus self)) avg_idxs ;;
    Ok (focus_out, field self)
  else Raise (ValueError "0.5 is only algorithm supported").

(** The full-field display: [data] has axes (field_x, field_y, freq); a
    sample outside the hull of the measured points is [nan] ([None]). *)
Record MTFFFD : Type := mkMTFFFD {
  ffd_data : list (list (list (option Qc)));
  field_x : arr1;
  field_y : arr1;
  ffd_freq : arr1
}.

(** What [read_trioptics_mtf_vs_field] of io.py returns for one file: image
    heights, frequencies, and the tangential and sagittal MTF with one row
    per frequency. *)
Record trioptics : Type := mkTrioptics {
  t_field : arr1;
  t_freq : arr1;
  t_tan : arr2;
  t_sag : arr2
}.

(** The collaborators of mtf_utils.py: the file reader of io.py,
    [radians], [cos] and [sin] of mathops.py, and [griddata] of scipy. *)
Class Collaborators : Type := {
  read_trioptics_mtf_vs_field : string -> result trioptics;
  radians : Qc -> Qc;
  cos : Qc -> Qc;
  sin : Qc -> Qc;
  griddata : list (Qc * Qc) -> arr1 -> arr2 * arr2 -> list (list (option Qc))
}.

(** The value passed as [ret]. *)
Inductive ret_arg : Type :=
| Tuple (items : list string)
| List (items : list string)
| Str (s : string).

(** [ret == ('tan', 'sag')] *)
Definition is_tan_sag (ret : ret_arg) : bool :=
  match ret with
  | Tuple ["tan"%string; "sag"%string] => true
  | _ => false
  end.

Section FullField.

Context {CO : Collaborators}.

(** [MTFFFD.from_dataframe], mtf_utils.py lines 396-414. *)
Definition from_dataframe (df : list (list Qc)) (azimuth : string)
  : result MTFFFD :=
  Raise (call_NotImplemented "not yet complete, df schema needs to be designed").

(** The loop of lines 444-452. *)
Fixpoint read_all (files : list (string * Qc))
  : result (list (arr1 * arr1 * trioptics)) :=
  match files with
  | [] => Ok []
  | (path, angle) :: rest =>
      d <~ read_trioptics_mtf_vs_field path ;;
      let imght := t_field d in
      let x := map (fun h => h * cos angle) imght in
      let y := map (fun h => h * sin angle) imght in
      more <~ read_all rest ;;
      Ok ((x, y, d) :: more)
  end.

Definition min1 (v : arr1) : result Qc :=
  match v with
  | [] => Raise (ValueError "zero-size array to reduction operation minimum which has no identity")
  | w :: v' => Ok (fold_left (fun a b => if Qcltb b a then b else a) v' w)
  end.

Definition max1 (v : arr1) : result Qc :=
  match v with
  | [] => Raise (ValueError "zero-size array to reduction operation maximum which has no identity")
  | w :: v' => Ok (fold_left Qcmax v' w)
  end.

(** [rollaxis(asarray(planes), 0, 3)]: the frequency axis goes last. *)
Definition rollaxis_0_3 (n : nat) (planes : list (list (list (option Qc))))
  : list (list (list (option Qc))) :=
  map (fun a =>
         map (fun b => map (fun g => nth b (nth a g []) None) planes)
             (seq 0 n))
      (seq 0 n).

(** What lines 442-471 of [from_trioptics_files] have computed when the
    function looks at [ret]: the two interpolated cubes, the output axes and
    the frequencies of every file. *)
Record interpolated : Type := mkInterpolated {
  tan : list (list (list (option Qc)));
  sag : list (list (list (option Qc)));
  out_x : arr1;
  out_y : arr1;
  farr : arr2
}.

(** Lines 442-471 of [from_trioptics_files]. *)
Definition interpolate_fields (paths : list string) (azimuths : list Qc)
  (upsample : nat) : result interpolated :=
  let azimuths := map radians azimuths in
  rows <~ read_all (combine paths azimuths) ;;
  let xs := map (fun r => fst (fst r)) rows in
  let ys := map (fun r => snd (fst r)) rows in
  let freqs := map (fun r => t_freq (snd r)) rows in
  let ts := map (fun r => t_tan (snd r)) rows in
  let ss := map (fun r => t_sag (snd r)) rows in
  xs0 <~ getitem xs 0 ;;
  let npts := (length xs0 * upsample)%nat in
  xmin <~ min1 (concat xs) ;;
  xmax <~ max1 (concat xs) ;;
  ymin <~ min1 (concat ys) ;;
  ymax <~ max1 (concat ys) ;;
  let out_x := linspace xmin xmax npts in
  let out_y := linspace ymin ymax npts in
  let grid := meshgrid out_x out_y in
  let sample_pts := combine (concat xs) (concat ys) in
  let n_freq := length (hd [] ts) in
  let channel (vals : list arr2) (idx : nat) : arr1 :=
    concat (map (fun a => nth idx a []) vals) in
  let interpt := map (fun idx => griddata sample_pts (channel ts idx) grid)
                     (seq 0 n_freq) in
  let interps := map (fun idx => griddata sample_pts (channel ss idx) grid)
                     (seq 0 n_freq) in
  Ok (mkInterpolated (rollaxis_0_3 npts interpt) (rollaxis_0_3 npts interps)
                     out_x out_y freqs).

(** [MTFFFD.from_trioptics_files], mtf_utils.py lines 416-475. *)
Definition from_trioptics_files (paths : list string) (azimuths : list Qc)
  (upsample : nat) (ret : ret_arg) : result (MTFFFD * MTFFFD) :=
  r <~ interpolate_fields paths azimuths upsample ;;
  if is_tan_sag ret then
    farr0 <~ getitem (farr r) 0 ;;
    Ok (mkMTFFFD (tan r) (out_x r) (out_y r) farr0,
        mkMTFFFD (sag r) (out_x r) (out_y r) farr0)
  else Raise (call_NotImplemented "other returns not implemented").

End FullField.

End MtfUtils.

(* ------------------------------------------------------------------------- *)
(** ** The documented behaviour, in the specification's words *)
(* ------------------------------------------------------------------------- *)

Module Spec.

Local Open Scope Qc_scope.

Section Formulae.

Context {NP : NumericPrimitives}.

Definition at2 (a : arr2) (i j : nat) : Qc := nth j (nth i a []) 0.

Definition sum_upto (n : nat) (f : nat -> Qc) : Qc :=
  fold_right Qcplus 0 (map f (seq 0 n)).

(** [integration_term = J1(2 pi radius nu_p) / nu_p], at one grid point. *)
Definition integration_term (radius : Qc) (nu_p : arr2) (i j : nat) : Qc :=
  j1 (of_int 2 * pi * radius * at2 nu_p i j) / at2 nu_p i j.

(** [radius * sum(mtf_field * integration_term) * dnx * dny], the sum taken
    over the points of the frequency grid. *)
Definition encircled_energy_formula (mtf_field : arr2) (radius : Qc)
  (nu_p : arr2) (dnx dny : Qc) : Qc :=
  radius
  * sum_upto (length nu_p) (fun i =>
      sum_upto (length (nth i nu_p [])) (fun j =>
        at2 mtf_field i j * integration_term radius nu_p i j))
  * dnx * dny.

(** [nu_p = sqrt(nx^2 + ny^2)] on the mesh of the frequencies [x] and [y],
    an exact zero replaced by [1e-99]. *)
Definition radial_frequencies (x y : arr1) : arr2 :=
  map (fun yi =>
         map (fun xj =>
                let nu := sqrt (xj * xj + yi * yi) in
                if Qc_eq_dec nu 0 then Psf.eps else nu) x) y.

(** [1 - J0(p)^2 - J1(p)^2] with [p = points pi / (fno wavelength)]. *)
Definition diffraction_energy (fno wavelength points : Qc) : Qc :=
  let p := points * pi / (fno * wavelength) in
  1 - j0 p ^ 2 - j1 p ^ 2.

End Formulae.

(** The MTF against focus at one field and one frequency. *)
Definition through_focus (c : arr3) (i j : nat) : arr1 :=
  map (fun plane => nth j (nth i plane []) 0) c.

Definition maximum (v : arr1) : Qc :=
  match v with
  | [] => 0
  | w :: v' => fold_left Qcmax v' w
  end.

(** The focus index of maximum MTF: the first sample that reaches the
    maximum. *)
Definition index_of_max (v : arr1) : nat :=
  match list_index (maximum v) v with
  | Some k => k
  | None => 0%nat
  end.

(** The frequency channels that are averaged: all of them, without channel 0
    when [freq[0] == 0]. *)
Definition averaged_channels (freq : arr1) : list nat :=
  match freq with
  | f0 :: _ => if Qc_eq_dec f0 0 then seq 1 (length freq - 1)
               else seq 0 (length freq)
  | [] => []
  end.

Definition average (v : list nat) : Qc :=
  of_int (Z.of_nat (fold_right Nat.add 0%nat v)) / of_int (Z.of_nat (length v)).

(** The fractional focus index of field [i]. *)
Definition average_index (c : arr3) (freq : arr1) (i : nat) : Qc :=
  average (map (fun j => index_of_max (through_focus c i j))
               (averaged_channels freq)).

(** [focus[floor(idx)] + (focus[ceil(idx)] - focus[floor(idx)]) * frac(idx)] *)
Definition bracket (focus : arr1) (idx : Qc) : Qc :=
  let lo := nth (Z.to_nat (Qfloor idx)) focus 0 in
  let hi := nth (Z.to_nat (Qceiling idx)) focus 0 in
  lo + (hi - lo) * (idx - of_int (Qfloor idx)).

Definition trace_focus_average (c : MtfUtils.MTFvFvF) : arr1 :=
  map (fun i => bracket (MtfUtils.focus c)
                        (average_index (MtfUtils.data c) (MtfUtils.freq c) i))
      (seq 0 (length (MtfUtils.field c))).

(** A matrix of [n1] rows of [n2] entries. *)
Definition shape2 {A : Type} (n1 n2 : nat) (p : list (list A)) : Prop :=
  length p = n1 /\ Forall (fun row => length row = n2) p.

(** The data-cube invariant [data.shape[i] == len(axis_i)]. *)
Definition cube_shape (c : MtfUtils.MTFvFvF) : Prop :=
  length (MtfUtils.data c) = length (MtfUtils.focus c)
  /\ Forall (shape2 (length (MtfUtils.field c)) (length (MtfUtils.freq c)))
            (MtfUtils.data c).

(** The MTF peaks at focus index [k] for every field and frequency. *)
Definition peaks_at (c : MtfUtils.MTFvFvF) (k : nat) : Prop :=
  (k < length (MtfUtils.focus c))%nat
  /\ forall i j k',
       (i < length (MtfUtils.field c))%nat ->
       (j < length (MtfUtils.freq c))%nat ->
       (k' < length (MtfUtils.focus c))%nat ->
       k' <> k ->
       nth k' (through_focus (MtfUtils.data c) i j) 0
       < nth k (through_focus (MtfUtils.data c) i j) 0.

End Spec.

(* ------------------------------------------------------------------------- *)
(** ** Invariants of a PSF instance *)
(* ------------------------------------------------------------------------- *)

Module Inv.

Local Open Scope Qc_scope.

Section Invariants.

Context {NP : NumericPrimitives} {CO : Psf.Collaborators}.

(** The lazily built fields are all present. *)
Definition built (self : Psf.PSF) (m : Otf.MTF) (nu : arr2) (dx dy : Qc)
  : Prop :=
  Psf._mtf self = Some m /\ Psf._nu_p self = Some nu
  /\ Psf._dnx self = Some dx /\ Psf._dny self = Some dy.

Definition nonzero (a : arr2) : Prop :=
  Forall (Forall (fun v => v <> 0)) a.

(** Every memoised energy is the core's value at its radius, for the fields
    the instance holds. *)
Definition cache_sound (self : Psf.PSF) : Prop :=
  forall r e, In (r, e) (Psf._ee self) ->
    exists m nu dx dy,
      built self m nu dx dy
      /\ e = Psf._encircled_energy_core (Otf.data m) (r / of_int 1000) nu dx dy.

Definition psf_inv (self : Psf.PSF) : Prop :=
  cache_sound self
  /\ NoDup (keys (Psf._ee self))
  /\ (forall nu, Psf._nu_p self = Some nu -> nonzero nu).

End Invariants.

End Inv.

(* ------------------------------------------------------------------------- *)
(** ** Concrete instances *)
(* ------------------------------------------------------------------------- *)

Module Fixture.

Local Open Scope Qc_scope.
Local Open Scope py_scope.

Definition q (n : Z) (d : positive) : Qc := Q2Qc (n # d).

(** Stand-ins for the numerical primitives: the Bessel functions cut after
    two terms of their series, a rational [pi], the integer square root, and
    a minimiser that probes the objective at 0 and at 1. *)
Definition bessel0 (v : Qc) : Qc := 1 - v * v * q 1 4.
Definition bessel1 (v : Qc) : Qc := v * q 1 2 - v * v * v * q 1 16.

Definition probe (S : Type) (f : Qc -> M S Qc) : M S Qc :=
  a <- f 0 ;; b <- f 1 ;; ret (if Qcltb b a then 1 else 0).

Definition np : NumericPrimitives.
Proof.
  refine {| pi := q 355 113;
            sqrt := fun v => of_int (Z.sqrt (Qfloor v));
            j0 := bessel0;
            j1 := bessel1;
            golden := probe |};
  apply Qc_is_canon; reflexivity.
Defined.

(** Stand-ins for otf.py and util.py: one 2 x 2 MTF for every PSF, and
    [sort_xy] by insertion on the abscissa. *)
Definition mtf22 : Otf.MTF :=
  Otf.mkMTF [0; 1] [0; 1] [[1; q 1 2]; [q 1 2; q 1 4]].

Fixpoint insert_xy (p : Qc * Qc) (l : list (Qc * Qc)) : list (Qc * Qc) :=
  match l with
  | [] => [p]
  | p' :: l' => if Qcltb (fst p') (fst p) then p' :: insert_xy p l'
                else p :: l
  end.

Definition sort_pairs (xs ys : list Qc) : list Qc * list Qc :=
  split (fold_right insert_xy [] (combine xs ys)).

Definition co : Psf.Collaborators :=
  {| Psf.from_psf := fun _ => mtf22; Psf.sort_xy := sort_pairs |}.

(** A PSF as [__init__] leaves it. *)
Definition psf0 : Psf.PSF :=
  Psf.__init__ [0; 1] [0; 1] [[1; 0]; [0; 0]].

(** The same instance after its MTF fields have been built, and the fields
    it then holds. *)
Definition psf1 : Psf.PSF := snd (@Psf.lazy_mtf np co psf0).

Definition nu1 : arr2 :=
  match Psf._nu_p psf1 with Some nu => nu | None => [] end.

Definition dx1 : Qc := match Psf._dnx psf1 with Some d => d | None => 0 end.
Definition dy1 : Qc := match Psf._dny psf1 with Some d => d | None => 0 end.

(** The same instance after the energy at radius 1 has been asked for, and
    that energy. *)
Definition psf2 : Psf.PSF :=
  snd (@Psf.encircled_energy np co (Psf.Scalar 1) psf0).

Definition e1 : Qc :=
  match Psf._ee psf2 with (_, e) :: _ => e | [] => 0 end.

(** A minimiser that fails whenever it is run. *)
Definition failing (S : Type) (f : Qc -> M S Qc) : M S Qc :=
  raise (ValueError "the minimiser was run").

(** The cube of the specification's example: focus [-10, -5, 0, 5, 10], the
    MTF peaking at index 2 for both fields and both frequencies. *)
Definition cube_flat : MtfUtils.MTFvFvF :=
  MtfUtils.mkMTFvFvF
    [ [[q 1 10; q 1 10]; [q 1 10; q 1 10]];
      [[q 3 10; q 2 10]; [q 3 10; q 2 10]];
      [[q 9 10; q 8 10]; [q 7 10; q 6 10]];
      [[q 3 10; q 2 10]; [q 3 10; q 2 10]];
      [[q 1 10; q 1 10]; [q 1 10; q 1 10]] ]
    [of_int (-10); of_int (-5); 0; of_int 5; of_int 10]
    [0; 1]
    [of_int 10; of_int 20]
    "Tan".

(** A cube whose only channel is the zero frequency: three focus samples,
    one field, the MTF peaking at index 1. *)
Definition cube_dc : MtfUtils.MTFvFvF :=
  MtfUtils.mkMTFvFvF
    [ [[q 1 2]]; [[1]]; [[q 1 2]] ]
    [of_int (-5); 0; of_int 5]
    [0]
    [0]
    "Tan".

(** Stand-ins for io.py, mathops.py and scipy: every file holds the same
    two image heights at one frequency, and the interpolator leaves every
    grid point undefined. *)
Definition measured : MtfUtils.trioptics :=
  MtfUtils.mkTrioptics [0; 1] [of_int 10] [[1; q 1 2]] [[1; q 1 4]].

Definition co_mtf : MtfUtils.Collaborators :=
  {| MtfUtils.read_trioptics_mtf_vs_field := fun _ => Ok measured;
     MtfUtils.radians := fun d => d * q 355 113 * q 1 180;
     MtfUtils.cos := fun a => 1 - a * a * q 1 2;
     MtfUtils.sin := fun a => a - a * a * a * q 1 6;
     MtfUtils.griddata := fun _ _ grid => map (map (fun _ => None)) (fst grid) |}.

End Fixture.

(* ------------------------------------------------------------------------- *)
(** ** psf.py: the remaining methods *)
(* ------------------------------------------------------------------------- *)

Module PsfMore.

Import Psf.
Local Open Scope Qc_scope.
Local Open Scope py_scope.

(** [a.max()] over every entry of a two-dimensional array. *)
Definition amax (a : arr2) : result Qc :=
  match concat a with
  | [] => Raise (ValueError "zero-size array to reduction operation maximum which has no identity")
  | w :: v => Ok (fold_left Qcmax v w)
  end.


Definition set_optics (f w : Qc) (self : PSF) : PSF :=
  {| x := x self; y := y self; data := data self;
     _ee := _ee self; _mtf := _mtf self; _nu_p := _nu_p self;
     _dnx := _dnx self; _dny := _dny self;
     fno := Some f; wavelength := Some w |}.


(** The pupil that [from_pupil] reads: the wavefunction [fcn], of a type
    this file does not look into, the sample spacing, the wavelength, the
    aperture mask and the diameter. *)
Record Pupil (W : Type) : Type := mkPupil {
  fcn : W;
  sample_spacing : Qc;
  pupil_wavelength : Qc;
  _mask : arr2;
  diameter : Qc
}.

(** The two functions of propagation.py. *)
Class Propagation (W : Type) : Type := {
  prop_pupil_plane_to_psf_plane : W -> Qc -> arr2;
  prop_pupil_plane_to_psf_plane_units :
    W -> Qc -> Qc -> Qc -> Qc -> arr1 * arr1
}.

(** The literal [1e-3]. *)
Definition milli : Qc := Q2Qc (1 # 1000).

Section FromPupil.

Context {W : Type} {PR : Propagation W}.

(** [PSF.from_pupil], psf.py lines 226-280.  [1 / data.max()] and
    [1 / S2 ** 2] divide by array scalars (a zero there gives a non-finite
    coefficient, see [_renorm]); [efl / pupil.diameter] divides Python
    scalars.  The argument [incoherent] is not read. *)
Definition from_pupil (pupil : Pupil W) (efl Q : Qc) (norm : string)
  (radpower : Qc) (incoherent : bool) : result PSF :=
  let ss := sample_spacing pupil in
  let wvl := pupil_wavelength pupil in
  let data := prop_pupil_plane_to_psf_plane (fcn pupil) Q in
  let norm := lower norm in
  coef <~
    (if String.eqb norm "max" then
       m <~ amax data ;; Ok (1 / m)
     else if String.eqb norm "radiometric" then
       let P := radpower in
       let S2 := arr_sum (arr_map (fun v => v ^ 2) (_mask pupil)) in
       let coef := 1 / S2 ^ 2 in
       let D := arr_sum (_mask pupil) * ss ^ 2 in
       let coef_BornWolf := P * D / ((wvl * milli) ^ 2 * efl ^ 2) in
       Ok (coef * coef_BornWolf)
     else Raise (ValueError "unknown norm")) ;;
  let data := arr_map (fun v => v * coef) data in
  let (ux, uy) :=
    prop_pupil_plane_to_psf_plane_units (fcn pupil) ss efl wvl Q in
  let psf := __init__ ux uy data in
  f <~ truediv efl (diameter pupil) ;;
  Ok (set_optics f wvl psf).

End FromPupil.

Section Engine.

Context {NP : NumericPrimitives} {CO : Collaborators}.

(** The objective [optfcn] that [ee_radius] defines in lines 134-135. *)
Definition optfcn (energy x : Qc) : M PSF Qc :=
  e <- encircled_energy (Scalar x) ;;
  match e with
  | Float e => ret (sq (e - energy))
  | Array _ => raise (TypeError "objective is not a scalar")
  end.

End Engine.

End PsfMore.

(* ------------------------------------------------------------------------- *)
(** ** mtf_utils.py: the remaining functions *)
(* ------------------------------------------------------------------------- *)

Module MtfMore.

Import MtfUtils.
Local Open Scope Qc_scope.
Local Open Scope py_scope.

(** [l[a:b]] with non-negative bounds. *)
Definition slice {A : Type} (l : list A) (a b : nat) : list A :=
  firstn (b - a) (skipn a l).

(** [data[:, :, idx]]: the index is checked against the last axis. *)
Definition take_channel {A : Type} (c : list (list (list A))) (idx : nat)
  : result (list (list A)) :=
  mapM (fun plane =>
          mapM (fun row => match nth_error row idx with
                           | Some v => Ok v
                           | None => Raise IndexError
                           end) plane) c.

(** [data[a:b, i, j]]: the two indices are checked against their axes, then
    the focus axis is sliced. *)
Definition take_through_focus (c : arr3) (a b i j : nat) : result arr1 :=
  col <~ mapM (fun plane => match nth_error plane i with
                            | None => Raise IndexError
                            | Some row => match nth_error row j with
                                          | Some v => Ok v
                                          | None => Raise IndexError
                                          end
                            end) c ;;
  Ok (slice col a b).

(** [correct_gamma] of util.py. *)
Class Util : Type := {
  correct_gamma : arr2 -> arr2
}.

(** What [plot2d] hands to [imshow]: the image and its extent
    [x0, x1, y0, y1]. *)
Record image (A : Type) : Type := mkImage {
  dat : list (list A);
  ext : Qc * Qc * Qc * Qc
}.

(** What [plot_thrufocus_singlefield] plots: the abscissae, one curve per
    requested frequency with its label, and the limits of the x axis. *)
Record thrufocus : Type := mkThrufocus {
  xaxis_pts : arr1;
  curves : list (arr1 * Qc);
  xlim : Qc * Qc
}.

Section Plots.

Context {UT : Util}.

(** [MTFvFvF.plot2d], mtf_utils.py lines 53-113, up to the image handed to
    the plotting layer. *)
Definition plot2d (self : MTFvFvF) (freq : Qc) (symmetric : bool)
  : result (image Qc) :=
  x0 <~ getitem (field self) 0 ;;
  x1 <~ getitem (field self) (-1) ;;
  y0 <~ getitem (focus self) 0 ;;
  y1 <~ getitem (focus self) (-1) ;;
  let freq_idx := searchsorted (MtfUtils.freq self) freq in
  if symmetric then
    mirrored <~ rmap (map (@rev Qc)) (take_channel (data self) freq_idx) ;;
    plain <~ take_channel (data self) freq_idx ;;
    Ok (mkImage (correct_gamma (map2 (@app Qc) mirrored plain))
                (x1 * - (1), x1, y0, y1))
  else
    plain <~ take_channel (data self) freq_idx ;;
    Ok (mkImage (correct_gamma plain) (x0, x1, y0, y1)).

(** [MTFvFvF.plot_thrufocus_singlefield], mtf_utils.py lines 115-156, up to
    the curves handed to the plotting layer. *)
Definition plot_thrufocus_singlefield (self : MTFvFvF) (field : Qc)
  (freqs : list Qc) (_range : Qc) : result thrufocus :=
  let field_idx := searchsorted (MtfUtils.field self) field in
  let freq_idxs := map (searchsorted (freq self)) freqs in
  let r0 := searchsorted (focus self) (- _range) in
  let r1 := searchsorted (focus self) _range in
  let xaxis_pts := slice (focus self) r0 r1 in
  mtf_arrays <~
    mapM (fun idx => take_through_focus (data self) r0 r1 field_idx idx)
         (map fst (combine freq_idxs freqs)) ;;
  first <~ getitem xaxis_pts 0 ;;
  last <~ getitem xaxis_pts (-1) ;;
  Ok (mkThrufocus xaxis_pts (combine mtf_arrays freqs) (first, last)).

End Plots.

(** One row of the table that [mtf_ts_to_dataframe] builds. *)
Record row : Type := mkRow {
  Field : Qc;
  Focus : Qc;
  Freq : Qc;
  Azimuth : string;
  MTF : Qc
}.

(** [zip(a, b, c)] *)
Fixpoint zip3 {A B C : Type} (a : list A) (b : list B) (c : list C)
  : list (A * B * C) :=
  match a, b, c with
  | u :: a', v :: b', w :: c' => (u, v, w) :: zip3 a' b' c'
  | _, _, _ => []
  end.

(** [mtf_ts_to_dataframe], mtf_utils.py lines 300-336: the rows handed to
    [pd.DataFrame].  The loop header reads [for f, s, t in zip(freqs, tan,
    sag)]: [s] is bound to the entry of [tan] and [t] to the entry of
    [sag]. *)
Definition mtf_ts_to_dataframe (tan sag freqs : arr1) (field focus : Qc)
  : list row :=
  flat_map (fun fst_ : Qc * Qc * Qc =>
              let '(f, s, t) := fst_ in
              [ mkRow field focus f "Tan" t;
                mkRow field focus f "Sag" s ])
           (zip3 freqs tan sag).

(** [int(freq)] truncates towards zero. *)
Definition int (v : Qc) : Z :=
  if Qcltb v 0 then Qceiling v else Qfloor v.

(** [_int_check_frequencies], mtf_utils.py lines 514-521. *)
Definition _int_check_frequencies (frequencies : list Qc) : list pynum :=
  map (fun freq => if Qc_eq_dec (mod1 freq) 0 then PyInt (int freq)
                   else PyFloat freq) frequencies.

End MtfMore.

(* ------------------------------------------------------------------------- *)
(** ** More concrete instances *)
(* ------------------------------------------------------------------------- *)

Module Fixture2.

Import Fixture.
Local Open Scope Qc_scope.
Local Open Scope py_scope.

(** A stand-in for otf.py whose MTF has one sample along x. *)
Definition mtf21 : Otf.MTF := Otf.mkMTF [0] [0; 1] [[1]; [q 1 2]].

Definition co_small : Psf.Collaborators :=
  {| Psf.from_psf := fun _ => mtf21; Psf.sort_xy := sort_pairs |}.


(** A pupil whose wavefunction is its own propagated intensity. *)
Definition pupil0 : PsfMore.Pupil arr2 :=
  PsfMore.mkPupil [[of_int 4; of_int 2]; [1; 1]] 1 (q 1 2)
                  [[1; 1]; [1; 1]] (of_int 2).

Definition propagation : PsfMore.Propagation arr2 :=
  {| PsfMore.prop_pupil_plane_to_psf_plane := fun w _ => w;
     PsfMore.prop_pupil_plane_to_psf_plane_units :=
       fun _ _ _ _ _ => ([0; 1], [0; 1]) |}.

Definition util : MtfMore.Util :=
  {| MtfMore.correct_gamma := fun a => a |}.

(** A second cube with the axes of [cube_flat], a zero frequency in channel
    0, and other values in that channel only. *)
Definition cube_zero : MtfUtils.MTFvFvF :=
  MtfUtils.mkMTFvFvF
    [ [[1; q 1 10]; [1; q 1 10]];
      [[1; q 2 10]; [1; q 2 10]];
      [[1; q 8 10]; [1; q 6 10]];
      [[1; q 2 10]; [1; q 2 10]];
      [[1; q 1 10]; [1; q 1 10]] ]
    [of_int (-10); of_int (-5); 0; of_int 5; of_int 10]
    [0; 1]
    [0; of_int 20]
    "Tan".

Definition cube_zero' : MtfUtils.MTFvFvF :=
  MtfUtils.mkMTFvFvF
    [ [[q 1 2; q 1 10]; [q 1 3; q 1 10]];
      [[q 1 2; q 2 10]; [q 1 3; q 2 10]];
      [[q 1 2; q 8 10]; [q 1 3; q 6 10]];
      [[1; q 2 10]; [q 1 3; q 2 10]];
      [[q 1 2; q 1 10]; [1; q 1 10]] ]
    [of_int (-10); of_int (-5); 0; of_int 5; of_int 10]
    [0; 1]
    [0; of_int 20]
    "Tan".

(** What the stand-ins give for the through-focus plot of [cube_flat] on
    axis at 10 cy/mm within 6 microns of focus, and for the full-field
    display of two files. *)
Definition thru0 : MtfMore.thrufocus :=
  match MtfMore.plot_thrufocus_singlefield cube_flat 0 [of_int 10]
          (of_int 6) with
  | Ok t => t
  | Raise _ => MtfMore.mkThrufocus [] [] (0, 0)
  end.


End Fixture2.

(* ------------------------------------------------------------------------- *)
(** ** Dictionaries and arrays: basic facts *)
(* ------------------------------------------------------------------------- *)

Unset Implicit Arguments.

Module PyFacts.

Local Open Scope Qc_scope.

Lemma dict_get_In (k v : Qc) (d : dict) :
  dict_get k d = Some v -> In (k, v) d.
Proof.
  induction d as [|[k' v'] d IH]; simpl; [discriminate|].
  destruct (Qc_eq_dec k' k) as [->|Hne]; intros H.
  - injection H as ->. now left.
  - right. now apply IH.
Qed.

Lemma dict_get_None (k : Qc) (d : dict) :
  dict_get k d = None -> ~ In k (keys d).
Proof.
  induction d as [|[k' v'] d IH]; simpl; [tauto|].
  destruct (Qc_eq_dec k' k) as [->|Hne]; [discriminate|].
  intros H [Heq|Hin]; [congruence|]. now apply IH.
Qed.

Lemma dict_get_NoDup (k v : Qc) (d : dict) :
  NoDup (keys d) -> In (k, v) d -> dict_get k d = Some v.
Proof.
  induction d as [|[k' v'] d IH]; simpl; [tauto|].
  intros Hnd [Heq|Hin].
  - injection Heq as -> ->. now destruct (Qc_eq_dec k k).
  - inversion Hnd as [|? ? Hnotin Hnd']; subst.
    destruct (Qc_eq_dec k' k) as [->|Hne].
    + exfalso. apply Hnotin. unfold keys.
      change k with (fst (k, v)). now apply in_map.
    + now apply IH.
Qed.

Lemma dict_set_fresh (k v : Qc) (d : dict) :
  dict_get k d = None -> dict_set k v d = d ++ [(k, v)].
Proof.
  induction d as [|[k' v'] d IH]; simpl; [reflexivity|].
  destruct (Qc_eq_dec k' k); [discriminate|].
  intros H. now rewrite IH.
Qed.

Lemma dict_get_app (k : Qc) (d d' : dict) :
  dict_get k (d ++ d') =
  match dict_get k d with Some v => Some v | None => dict_get k d' end.
Proof.
  induction d as [|[k' v'] d IH]; simpl; [reflexivity|].
  now destruct (Qc_eq_dec k' k).
Qed.

Lemma dict_get_last (k v : Qc) (d : dict) :
  dict_get k d = None -> dict_get k (d ++ [(k, v)]) = Some v.
Proof.
  intros H. rewrite dict_get_app, H. simpl. now destruct (Qc_eq_dec k k).
Qed.

Lemma dict_mem_get (k : Qc) (d : dict) :
  dict_mem k d = true <-> exists v, dict_get k d = Some v.
Proof.
  unfold dict_mem. destruct (dict_get k d) as [v|].
  - split; [now exists v | reflexivity].
  - split; [discriminate | intros [v H]; discriminate].
Qed.

Lemma keys_app (d d' : dict) : keys (d ++ d') = keys d ++ keys d'.
Proof. apply map_app. Qed.

Lemma list_contains_In (v : Qc) (l : list Qc) :
  list_contains v l = true <-> In v l.
Proof.
  unfold list_contains. rewrite existsb_exists. split.
  - intros [w [Hin Hw]]. destruct (Qc_eq_dec w v); [now subst | discriminate].
  - intros Hin. exists v. split; [assumption|]. now destruct (Qc_eq_dec v v).
Qed.

(** [l.index(v)] is the first position that holds [v]. *)
Lemma list_index_first (v : Qc) (l : list Qc) (n : nat) :
  list_index v l = Some n ->
  nth_error l n = Some v /\ forall n', (n' < n)%nat -> nth_error l n' <> Some v.
Proof.
  revert n. induction l as [|w l IH]; simpl; intros n; [discriminate|].
  destruct (Qc_eq_dec w v) as [->|Hne].
  - intros H. injection H as <-. split; [reflexivity|]. intros n' Hlt. lia.
  - destruct (list_index v l) as [m|] eqn:Hm; simpl; [|discriminate].
    intros H. injection H as <-. destruct (IH m eq_refl) as [Hnth Hfirst].
    split; [assumption|]. intros [|n'] Hlt; simpl.
    + congruence.
    + apply Hfirst. lia.
Qed.

Lemma list_index_In (v : Qc) (l : list Qc) :
  In v l -> exists n, list_index v l = Some n.
Proof.
  induction l as [|w l IH]; simpl; [tauto|].
  intros Hin. destruct (Qc_eq_dec w v) as [->|Hne]; [now exists 0%nat|].
  destruct Hin as [Heq|Hin]; [congruence|].
  destruct (IH Hin) as [n ->]. now exists (S n).
Qed.

Lemma getitem_nat {A : Type} (l : list A) (n : nat) (a : A) :
  nth_error l n = Some a -> getitem l (Z.of_nat n) = Ok a.
Proof.
  intros H. unfold getitem.
  destruct (Z.ltb_spec (Z.of_nat n) 0); [lia|].
  destruct (Z.ltb_spec (Z.of_nat n) 0); [lia|].
  now rewrite Nat2Z.id, H.
Qed.

End PyFacts.

(* ------------------------------------------------------------------------- *)
(** ** psf.py: the encircled-energy engine *)
(* ------------------------------------------------------------------------- *)

Module PsfFacts.

Import Psf Inv Spec PyFacts.
Local Open Scope Qc_scope.
Local Open Scope py_scope.

Lemma sum_upto_S (n : nat) (f : nat -> Qc) :
  sum_upto (S n) f = f 0%nat + sum_upto n (fun i => f (S i)).
Proof.
  unfold sum_upto. simpl. f_equal. now rewrite <- seq_shift, map_map.
Qed.

Lemma sum_upto_zero (n : nat) (f : nat -> Qc) :
  (forall i, f i = 0) -> sum_upto n f = 0.
Proof.
  revert f. induction n as [|n IH]; intros f Hf; [reflexivity|].
  rewrite sum_upto_S, Hf, IH by (intros; apply Hf). ring.
Qed.

Lemma nth_nil_zero (j : nat) : nth j (@nil Qc) 0 = 0.
Proof. now destruct j. Qed.

Lemma at2_nil (i j : nat) : at2 [] i j = 0.
Proof. unfold at2. destruct i; simpl; apply nth_nil_zero. Qed.

Lemma map2_nil_r {A B C : Type} (f : A -> B -> C) (a : list A) :
  map2 f a [] = [].
Proof. now destruct a. Qed.

(** One row of the weighted sum. *)
Lemma row_sum (g : Qc -> Qc) (m n : arr1) :
  sum1 (map2 Qcmult m (map2 Qcdiv (map g n) n)) =
  sum_upto (length n) (fun j => nth j m 0 * (g (nth j n 0) / nth j n 0)).
Proof.
  revert m. induction n as [|v n IH]; intros m; simpl.
  - now rewrite map2_nil_r.
  - destruct m as [|u m]; simpl.
    + symmetry. apply sum_upto_zero. intros i. destruct i; simpl; ring.
    + rewrite sum_upto_S. simpl. f_equal. apply IH.
Qed.

Section Engine.

Context {NP : NumericPrimitives} {CO : Collaborators}.

(** The array expression of [_encircled_energy_core] is the sum over the
    grid points that the specification writes. *)
Lemma core_is_formula (mtf_data : arr2) (radius : Qc) (nu_p : arr2)
  (dx dy : Qc) :
  _encircled_energy_core mtf_data radius nu_p dx dy =
  encircled_energy_formula mtf_data radius nu_p dx dy.
Proof.
  unfold _encircled_energy_core, encircled_energy_formula.
  do 3 f_equal.
  unfold arr_sum, arr_mul, arr_div, arr_map, arr_scale, integration_term.
  set (c := of_int 2 * pi * radius).
  revert mtf_data. induction nu_p as [|nr nu IH]; intros mtf_data; simpl.
  - now rewrite map2_nil_r.
  - destruct mtf_data as [|mr mtf]; simpl.
    + symmetry. apply sum_upto_zero. intros i. apply sum_upto_zero.
      intros j. rewrite at2_nil. ring.
    + rewrite sum_upto_S. simpl. f_equal; [|apply IH].
      rewrite map_map. apply (row_sum (fun v => j1 (c * v))).
Qed.

Lemma core_radius_zero (mtf_data nu_p : arr2) (dx dy : Qc) :
  _encircled_energy_core mtf_data 0 nu_p dx dy = 0.
Proof. unfold _encircled_energy_core. ring. Qed.

Lemma eps_nonzero : eps <> 0.
Proof.
  intros H. apply (f_equal this) in H. vm_compute in H. discriminate.
Qed.

Lemma replace_zeros_nonzero (c : Qc) (a : arr2) :
  c <> 0 -> nonzero (replace_zeros c a).
Proof.
  intros Hc. unfold nonzero, replace_zeros, arr_map.
  apply Forall_map, Forall_forall. intros row _.
  apply Forall_map, Forall_forall. intros v _.
  now destruct (Qc_eq_dec v 0).
Qed.

(** *** The lazy construction of the MTF fields *)

Lemma lazy_mtf_ee (self : PSF) : _ee (snd (lazy_mtf self)) = _ee self.
Proof.
  unfold lazy_mtf. destruct (_mtf self); [reflexivity|].
  destruct (meshgrid _ _) as [nx ny].
  destruct (rbind _ _) as [[dnx dny]|e]; reflexivity.
Qed.

Lemma lazy_mtf_built (self : PSF) (m : Otf.MTF) (nu : arr2) (dx dy : Qc) :
  built self m nu dx dy -> lazy_mtf self = (Ok tt, self).
Proof. intros [Hm _]. unfold lazy_mtf. now rewrite Hm. Qed.

Lemma mesh_radial_frequencies (x y : arr1) :
  replace_zeros eps
    (arr_map sqrt (arr_add (arr_map sq (fst (meshgrid x y)))
                           (arr_map sq (snd (meshgrid x y)))))
  = radial_frequencies x y.
Proof.
  unfold replace_zeros, arr_map, arr_add, meshgrid, radial_frequencies.
  simpl fst. simpl snd. rewrite !map_map.
  induction y as [|yi y IH]; simpl; [reflexivity|].
  rewrite IH. f_equal. clear IH.
  induction x as [|xj x IH]; simpl; [reflexivity|].
  now rewrite IH.
Qed.

(** On first use the radial frequencies are those of the MTF's mesh. *)
Lemma lazy_mtf_fresh (self self1 : PSF) :
  _mtf self = None -> lazy_mtf self = (Ok tt, self1) ->
  _mtf self1 = Some (from_psf self)
  /\ _nu_p self1
     = Some (radial_frequencies (Otf.x (from_psf self))
                                (Otf.y (from_psf self))).
Proof.
  intros Hm. unfold lazy_mtf. rewrite Hm.
  rewrite <- mesh_radial_frequencies.
  destruct (meshgrid _ _) as [nx ny]. simpl fst. simpl snd.
  destruct (rbind _ _) as [[dnx dny]|e]; intros H; inversion H; subst.
  now split.
Qed.

(** A new instance holds no energy, so nothing in it can be unsound. *)
Lemma init_inv (x y : arr1) (data : arr2) : psf_inv (__init__ x y data).
Proof.
  repeat split; simpl.
  - intros r e [].
  - constructor.
  - discriminate.
Qed.

Lemma cache_sound_empty (self : PSF) : _ee self = [] -> cache_sound self.
Proof. intros H r e Hin. rewrite H in Hin. destruct Hin. Qed.

Lemma cache_nonempty_built (self : PSF) :
  cache_sound self -> _ee self <> [] ->
  exists m nu dx dy, built self m nu dx dy.
Proof.
  intros Hs Hne. destruct (_ee self) as [|[r e] d] eqn:He; [congruence|].
  destruct (Hs r e) as (m & nu & dx & dy & Hb & _).
  - rewrite He. now left.
  - now exists m, nu, dx, dy.
Qed.

Lemma lazy_mtf_inv (self : PSF) :
  psf_inv self -> psf_inv (snd (lazy_mtf self)).
Proof.
  intros (Hs & Hnd & Hnz).
  destruct (_mtf self) as [m|] eqn:Hm.
  - unfold lazy_mtf. rewrite Hm. simpl. now repeat split.
  - assert (He : _ee self = []).
    { destruct (_ee self) as [|[r e] d] eqn:He; [reflexivity|].
      destruct (cache_nonempty_built self Hs) as (m & nu & dx & dy & Hb & _).
      - rewrite He. discriminate.
      - congruence. }
    split; [|split].
    + apply cache_sound_empty. now rewrite lazy_mtf_ee.
    + now rewrite lazy_mtf_ee.
    + unfold lazy_mtf. rewrite Hm.
      destruct (meshgrid _ _) as [nx ny].
      destruct (rbind _ _) as [[dnx dny]|e]; simpl;
        intros nu Hnu; injection Hnu as <-;
        apply replace_zeros_nonzero, eps_nonzero.
Qed.

(** *** One radius *)

Lemma ee_entry_hit (self : PSF) (r e : Qc) :
  dict_get r (_ee self) = Some e -> ee_entry r self = (Ok e, self).
Proof.
  intros H. unfold ee_entry, dict_mem, ee_getitem. now rewrite H.
Qed.

Lemma ee_entry_miss (self : PSF) (r : Qc) (m : Otf.MTF) (nu : arr2)
  (dx dy : Qc) :
  dict_get r (_ee self) = None -> built self m nu dx dy ->
  let v := _encircled_energy_core (Otf.data m) (r / of_int 1000) nu dx dy in
  ee_entry r self = (Ok v, set_ee (_ee self ++ [(r, v)]) self).
Proof.
  intros H (Hm & Hnu & Hdx & Hdy) v.
  unfold ee_entry, dict_mem. rewrite H, Hm, Hnu, Hdx, Hdy. simpl.
  fold v. rewrite (dict_set_fresh _ _ _ H).
  unfold ee_getitem. simpl. now rewrite (dict_get_last _ _ _ H).
Qed.

(** What one radius does to an instance whose fields are built: the value
    is the core's, the entry is there afterwards, and the memo has grown by
    at most that entry. *)
Lemma ee_entry_spec (self : PSF) (r : Qc) m nu dx dy :
  psf_inv self -> built self m nu dx dy ->
  let v := _encircled_energy_core (Otf.data m) (r / of_int 1000) nu dx dy in
  exists self' added,
    ee_entry r self = (Ok v, self')
    /\ psf_inv self' /\ built self' m nu dx dy
    /\ _ee self' = _ee self ++ added
    /\ dict_get r (_ee self') = Some v
    /\ (forall k, In k (keys added) -> k = r /\ dict_get k (_ee self) = None).
Proof.
  intros (Hs & Hnd & Hnz) Hb v.
  destruct (dict_get r (_ee self)) as [e|] eqn:Hget.
  - exists self, []. rewrite app_nil_r.
    assert (He : e = v).
    { destruct (Hs r e (dict_get_In _ _ _ Hget)) as (m' & nu' & dx' & dy' & Hb' & ->).
      destruct Hb as (? & ? & ? & ?), Hb' as (? & ? & ? & ?).
      unfold v. congruence. }
    subst e.
    split; [now apply ee_entry_hit|].
    split; [now repeat split|].
    split; [assumption|].
    split; [reflexivity|].
    split; [assumption|].
    intros k [].
  - exists (set_ee (_ee self ++ [(r, v)]) self), [(r, v)].
    split; [now apply ee_entry_miss|].
    split; [|split; [assumption|split; [reflexivity|split]]].
    + split; [|split].
      * intros r' e' Hin. simpl in Hin. apply in_app_or in Hin.
        destruct Hin as [Hin|[Heq|[]]].
        -- destruct (Hs r' e' Hin) as (m' & nu' & dx' & dy' & Hb' & ->).
           now exists m', nu', dx', dy'.
        -- injection Heq as <- <-. now exists m, nu, dx, dy.
      * simpl. rewrite keys_app. simpl.
        apply NoDup_app; [assumption | repeat constructor; intros [] | ].
        intros k Hk [<-|[]]. now apply (dict_get_None _ _ Hget).
      * exact Hnz.
    + simpl. now apply dict_get_last.
    + simpl. intros k [<-|[]]. now split.
Qed.

Lemma dict_get_grow (k v : Qc) (d d' : dict) :
  dict_get k d = Some v -> dict_get k (d ++ d') = Some v.
Proof. intros H. now rewrite dict_get_app, H. Qed.

(** *** The loop over an iterable of radii *)

Lemma ee_loop_spec (rs : list Qc) m nu dx dy :
  let energy := fun r =>
    _encircled_energy_core (Otf.data m) (r / of_int 1000) nu dx dy in
  forall (self : PSF) (out : list Qc),
  psf_inv self -> built self m nu dx dy ->
  exists self' added,
    ee_loop rs out self = (Ok (out ++ map energy rs), self')
    /\ psf_inv self' /\ built self' m nu dx dy
    /\ _ee self' = _ee self ++ added
    /\ (forall r, In r rs -> dict_get r (_ee self') = Some (energy r))
    /\ (forall k, In k (keys added) ->
          In k rs /\ dict_get k (_ee self) = None).
Proof.
  intros energy. induction rs as [|r rs IH]; intros self out Hinv Hb.
  - exists self, []. simpl. rewrite !app_nil_r.
    split; [reflexivity|]. split; [assumption|]. split; [assumption|].
    split; [reflexivity|]. split; intros ? [].
  - destruct (ee_entry_spec self r m nu dx dy Hinv Hb)
      as (s1 & add1 & Hrun & Hinv1 & Hb1 & Hee1 & Hget1 & Hnew1).
    destruct (IH s1 (out ++ [energy r]) Hinv1 Hb1)
      as (s2 & add2 & Hrun2 & Hinv2 & Hb2 & Hee2 & Hget2 & Hnew2).
    exists s2, (add1 ++ add2).
    split.
    { unfold energy in *. simpl. unfold bind. rewrite Hrun, Hrun2.
      now rewrite <- app_assoc. }
    split; [assumption|]. split; [assumption|].
    split; [now rewrite Hee2, Hee1, app_assoc|].
    split.
    + intros r' [<-|Hin]; [|now apply Hget2].
      rewrite Hee2. now apply dict_get_grow.
    + intros k Hk. rewrite keys_app in Hk. apply in_app_or in Hk.
      destruct Hk as [Hk|Hk].
      * destruct (Hnew1 k Hk) as [-> Hnone]. split; [now left | assumption].
      * destruct (Hnew2 k Hk) as [Hin Hnone]. split; [now right|].
        rewrite Hee1, dict_get_app in Hnone.
        now destruct (dict_get k (_ee self)).
Qed.

(** *** [encircled_energy] *)

Lemma lazy_mtf_ok (self self1 : PSF) :
  lazy_mtf self = (Ok tt, self1) ->
  _ee self1 = _ee self /\ (psf_inv self -> psf_inv self1).
Proof.
  intros H. split.
  - rewrite <- (lazy_mtf_ee self). now rewrite H.
  - intros Hinv. apply lazy_mtf_inv in Hinv. now rewrite H in Hinv.
Qed.

Lemma encircled_energy_scalar (self self1 : PSF) (r : Qc) m nu dx dy :
  psf_inv self -> lazy_mtf self = (Ok tt, self1) -> built self1 m nu dx dy ->
  let v := _encircled_energy_core (Otf.data m) (r / of_int 1000) nu dx dy in
  exists self',
    encircled_energy (Scalar r) self = (Ok (Float v), self')
    /\ psf_inv self' /\ built self' m nu dx dy
    /\ dict_get r (_ee self') = Some v.
Proof.
  intros Hinv Hlazy Hb v.
  destruct (lazy_mtf_ok self self1 Hlazy) as [Hee Hinv1].
  destruct (ee_entry_spec self1 r m nu dx dy (Hinv1 Hinv) Hb)
    as (s' & add & Hrun & Hinv' & Hb' & _ & Hget & _).
  exists s'. split; [|split; [assumption|split; assumption]].
  unfold encircled_energy, bind. rewrite Hlazy, Hrun. reflexivity.
Qed.

(** A radius that is a key is answered from the memo, whatever value the
    memo holds for it, and the instance is left as it was. *)
Lemma encircled_energy_memo (self : PSF) (r e : Qc) m nu dx dy :
  built self m nu dx dy -> dict_get r (_ee self) = Some e ->
  encircled_energy (Scalar r) self = (Ok (Float e), self).
Proof.
  intros Hb Hget. unfold encircled_energy, bind.
  rewrite (lazy_mtf_built self m nu dx dy Hb).
  now rewrite (ee_entry_hit self r e Hget).
Qed.

Lemma encircled_energy_iterable (self self1 : PSF) (rs : list Qc) m nu dx dy :
  psf_inv self -> lazy_mtf self = (Ok tt, self1) -> built self1 m nu dx dy ->
  let energy := fun r =>
    _encircled_energy_core (Otf.data m) (r / of_int 1000) nu dx dy in
  exists self' added,
    encircled_energy (Iterable rs) self = (Ok (Array (map energy rs)), self')
    /\ psf_inv self' /\ built self' m nu dx dy
    /\ _ee self' = _ee self ++ added
    /\ (forall r, In r rs -> dict_get r (_ee self') = Some (energy r))
    /\ (forall k, In k (keys added) ->
          In k rs /\ dict_get k (_ee self) = None).
Proof.
  intros Hinv Hlazy Hb energy.
  destruct (lazy_mtf_ok self self1 Hlazy) as [Hee Hinv1].
  destruct (ee_loop_spec rs m nu dx dy self1 [] (Hinv1 Hinv) Hb)
    as (s' & add & Hrun & Hinv' & Hb' & Hee' & Hget & Hnew).
  exists s', add.
  split.
  { unfold encircled_energy, bind. rewrite Hlazy, Hrun. reflexivity. }
  split; [assumption|]. split; [assumption|].
  split; [now rewrite Hee', Hee|].
  split; [assumption|]. intros k Hk. rewrite <- Hee. now apply Hnew.
Qed.

Lemma ee_entry_ok (self self' : PSF) (r v : Qc) :
  ee_entry r self = (Ok v, self') -> dict_get r (_ee self') = Some v.
Proof.
  unfold ee_entry, ee_getitem.
  destruct (negb (dict_mem r (_ee self))).
  - destruct (_mtf self), (_nu_p self), (_dnx self), (_dny self);
      try discriminate.
    simpl. destruct (dict_get r (dict_set r _ (_ee self))) eqn:Hget;
      intros H; inversion H; subst. exact Hget.
  - destruct (dict_get r (_ee self)) eqn:Hget;
      intros H; inversion H; subst. exact Hget.
Qed.

Lemma encircled_energy_ok (self self' : PSF) (r e : Qc) :
  encircled_energy (Scalar r) self = (Ok (Float e), self') ->
  dict_get r (_ee self') = Some e.
Proof.
  unfold encircled_energy, bind.
  destruct (lazy_mtf self) as [[[]|ex] s1]; [|discriminate].
  destruct (ee_entry r s1) as [[v|ex] s2] eqn:Hrun; [|discriminate].
  unfold ret. intros H. inversion H; subst.
  now apply (ee_entry_ok s1).
Qed.

End Engine.

(** *** [ee_radius] on a memoised energy *)

Lemma nth_error_keys_values (d : dict) (n : nat) (e : Qc) :
  nth_error (values d) n = Some e ->
  exists r, nth_error d n = Some (r, e) /\ nth_error (keys d) n = Some r.
Proof.
  unfold values, keys. rewrite !nth_error_map.
  destruct (nth_error d n) as [[r e']|]; simpl; [|discriminate].
  intros H. injection H as ->. now exists r.
Qed.

Lemma ee_radius_memo (NP : NumericPrimitives) (CO : Collaborators)
  (self : PSF) (r energy : Qc) :
  In (r, energy) (_ee self) ->
  exists r' n,
    ee_radius energy self = (Ok r', self)
    /\ list_index energy (values (_ee self)) = Some n
    /\ nth_error (_ee self) n = Some (r', energy).
Proof.
  intros Hin.
  assert (Hv : In energy (values (_ee self))).
  { unfold values. change energy with (snd (r, energy)). now apply in_map. }
  destruct (list_index_In _ _ Hv) as [n Hn].
  destruct (list_index_first _ _ _ Hn) as [Hnth _].
  destruct (nth_error_keys_values _ _ _ Hnth) as (r' & Hd & Hk).
  exists r', n. split; [|now split].
  unfold ee_radius. rewrite (proj2 (list_contains_In _ _) Hv), Hn.
  unfold lift. now rewrite (getitem_nat _ _ _ Hk).
Qed.

Lemma ee_radius_distinct (NP : NumericPrimitives) (CO : Collaborators)
  (self : PSF) (r energy : Qc) :
  In (r, energy) (_ee self) -> NoDup (values (_ee self)) ->
  ee_radius energy self = (Ok r, self).
Proof.
  intros Hin Hnd.
  destruct (ee_radius_memo NP CO self r energy Hin) as (r' & n & Hrun & Hn & Hd).
  destruct (In_nth_error _ _ Hin) as [p Hp].
  assert (Hpn : p = n).
  { assert (Hlt : (p < length (values (_ee self)))%nat).
    { unfold values. rewrite length_map. apply nth_error_Some. congruence. }
    apply (proj1 (NoDup_nth_error _) Hnd p n Hlt).
    unfold values. rewrite !nth_error_map, Hp, Hd. reflexivity. }
  subst p. rewrite Hd in Hp. injection Hp as ->. exact Hrun.
Qed.

(** *** The claims on the encircled-energy engine *)

(** C1.  With the MTF field, the radial frequencies [nu] and the spacings
    [dx], [dy] of a PSF in place, the encircled energy at a radius [r] given
    in microns is [rc * sum(mtf * J1(2 pi rc nu) / nu) * dx * dy] for
    [rc = r / 1000], the sum running over the frequency grid; no entry of
    [nu] is zero, so no quotient divides by zero. *)
Theorem encircled_energy_value :
  forall (NP : NumericPrimitives) (CO : Collaborators) (self self1 : PSF)
         (m : Otf.MTF) (nu : arr2) (dx dy r : Qc),
  psf_inv self -> lazy_mtf self = (Ok tt, self1) -> built self1 m nu dx dy ->
  let r_converted := r / of_int 1000 in
  r_converted * of_int 1000 = r
  /\ nonzero nu
  /\ (_mtf self = None ->
      nu = radial_frequencies (Otf.x (from_psf self)) (Otf.y (from_psf self)))
  /\ _encircled_energy_core (Otf.data m) r_converted nu dx dy
     = encircled_energy_formula (Otf.data m) r_converted nu dx dy
  /\ exists self',
       encircled_energy (Scalar r) self
       = (Ok (Float (encircled_energy_formula (Otf.data m) r_converted nu
                       dx dy)), self').
Proof.
  intros NP CO self self1 m nu dx dy r Hinv Hlazy Hb r_converted.
  split.
  { unfold r_converted. field. intros H. apply (f_equal this) in H.
    vm_compute in H. discriminate. }
  split.
  { destruct (lazy_mtf_ok self self1 Hlazy) as [_ Hinv1].
    destruct (Hinv1 Hinv) as (_ & _ & Hnz). apply Hnz. apply Hb. }
  split.
  { intros Hfresh.
    destruct (lazy_mtf_fresh self self1 Hfresh Hlazy) as [_ Hnu].
    destruct Hb as (_ & Hnu' & _). congruence. }
  split; [apply core_is_formula|].
  destruct (encircled_energy_scalar self self1 r m nu dx dy Hinv Hlazy Hb)
    as (s' & Hrun & _).
  exists s'. now rewrite <- core_is_formula.
Qed.

Lemma encircled_energy_value_witness :
  @psf_inv Fixture.np Fixture.psf0
  /\ @lazy_mtf Fixture.np Fixture.co Fixture.psf0 = (Ok tt, Fixture.psf1)
  /\ built Fixture.psf1 Fixture.mtf22 Fixture.nu1 Fixture.dx1 Fixture.dy1
  /\ nonzero Fixture.nu1
  /\ exists self',
       @encircled_energy Fixture.np Fixture.co (Scalar 1) Fixture.psf0
       = (Ok (Float (@encircled_energy_formula Fixture.np
                       (Otf.data Fixture.mtf22) (1 / of_int 1000)
                       Fixture.nu1 Fixture.dx1 Fixture.dy1)), self').
Proof.
  assert (H0 : @psf_inv Fixture.np Fixture.psf0) by apply init_inv.
  assert (H1 : @lazy_mtf Fixture.np Fixture.co Fixture.psf0
               = (Ok tt, Fixture.psf1)) by (vm_compute; reflexivity).
  assert (H2 : built Fixture.psf1 Fixture.mtf22 Fixture.nu1 Fixture.dx1
                 Fixture.dy1) by (repeat split; vm_compute; reflexivity).
  split; [exact H0|]. split; [exact H1|]. split; [exact H2|].
  destruct (encircled_energy_value Fixture.np Fixture.co Fixture.psf0
              Fixture.psf1 Fixture.mtf22 Fixture.nu1 Fixture.dx1 Fixture.dy1
              1 H0 H1 H2) as (_ & Hnz & _ & _ & Hrun).
  split; [exact Hnz | exact Hrun].
Defined.

(** C10.  At radius 0 the encircled energy is 0, whatever the MTF field,
    the frequency grid and the spacings are, and the memo holds 0 under the
    key 0 afterwards. *)
Theorem encircled_energy_zero_radius :
  forall (NP : NumericPrimitives) (CO : Collaborators) (self self1 : PSF)
         (m : Otf.MTF) (nu : arr2) (dx dy : Qc),
  psf_inv self -> lazy_mtf self = (Ok tt, self1) -> built self1 m nu dx dy ->
  exists self',
    encircled_energy (Scalar 0) self = (Ok (Float 0), self')
    /\ dict_get 0 (_ee self') = Some 0
    /\ In (0, 0) (_ee self').
Proof.
  intros NP CO self self1 m nu dx dy Hinv Hlazy Hb.
  destruct (encircled_energy_scalar self self1 0 m nu dx dy Hinv Hlazy Hb)
    as (s' & Hrun & _ & _ & Hget).
  assert (Hz : _encircled_energy_core (Otf.data m) (0 / of_int 1000) nu dx dy
               = 0).
  { replace (0 / of_int 1000) with 0 by (unfold Qcdiv; ring).
    apply core_radius_zero. }
  rewrite Hz in Hrun, Hget.
  exists s'. split; [exact Hrun|]. split; [exact Hget|].
  now apply dict_get_In.
Qed.

Lemma encircled_energy_zero_radius_witness :
  @psf_inv Fixture.np Fixture.psf0
  /\ @lazy_mtf Fixture.np Fixture.co Fixture.psf0 = (Ok tt, Fixture.psf1)
  /\ built Fixture.psf1 Fixture.mtf22 Fixture.nu1 Fixture.dx1 Fixture.dy1
  /\ exists self',
       @encircled_energy Fixture.np Fixture.co (Scalar 0) Fixture.psf0
       = (Ok (Float 0), self')
       /\ dict_get 0 (_ee self') = Some 0
       /\ In (0, 0) (_ee self').
Proof.
  assert (H0 : @psf_inv Fixture.np Fixture.psf0) by apply init_inv.
  assert (H1 : @lazy_mtf Fixture.np Fixture.co Fixture.psf0
               = (Ok tt, Fixture.psf1)) by (vm_compute; reflexivity).
  assert (H2 : built Fixture.psf1 Fixture.mtf22 Fixture.nu1 Fixture.dx1
                 Fixture.dy1) by (repeat split; vm_compute; reflexivity).
  split; [exact H0|]. split; [exact H1|]. split; [exact H2|].
  exact (encircled_energy_zero_radius Fixture.np Fixture.co Fixture.psf0
           Fixture.psf1 Fixture.mtf22 Fixture.nu1 Fixture.dx1 Fixture.dy1
           H0 H1 H2).
Defined.

(** C6.  An iterable of radii yields one energy per radius, in the order of
    the input, each the value the core computes for that radius alone and
    each stored under its radius; a scalar radius yields a scalar.  The memo
    keeps every earlier entry in place and gains only radii of the input
    that were not keys, so its keys stay distinct.  A radius that is a key
    is answered from the memo (whatever the memo holds for it) and leaves
    the instance unchanged. *)
Theorem encircled_energy_vector :
  forall (NP : NumericPrimitives) (CO : Collaborators) (self self1 : PSF)
         (m : Otf.MTF) (nu : arr2) (dx dy : Qc) (rs : list Qc),
  psf_inv self -> lazy_mtf self = (Ok tt, self1) -> built self1 m nu dx dy ->
  let energy := fun r =>
    _encircled_energy_core (Otf.data m) (r / of_int 1000) nu dx dy in
  exists self' added out,
    encircled_energy (Iterable rs) self = (Ok (Array out), self')
    /\ out = map energy rs
    /\ length out = length rs
    /\ _ee self' = _ee self ++ added
    /\ NoDup (keys (_ee self'))
    /\ (forall k, In k (keys added) -> In k rs /\ ~ In k (keys (_ee self)))
    /\ (forall r, In r rs ->
          dict_get r (_ee self') = Some (energy r)
          /\ encircled_energy (Scalar r) self'
             = (Ok (Float (energy r)), self'))
    /\ (forall r, exists self'',
          encircled_energy (Scalar r) self = (Ok (Float (energy r)), self''))
    /\ (forall s r e,
          built s m nu dx dy -> dict_get r (_ee s) = Some e ->
          encircled_energy (Scalar r) s = (Ok (Float e), s)).
Proof.
  intros NP CO self self1 m nu dx dy rs Hinv Hlazy Hb energy.
  destruct (encircled_energy_iterable self self1 rs m nu dx dy Hinv Hlazy Hb)
    as (s' & added & Hrun & Hinv' & Hb' & Hee & Hget & Hnew).
  exists s', added, (map energy rs).
  split; [exact Hrun|]. split; [reflexivity|].
  split; [apply length_map|]. split; [exact Hee|].
  split; [apply Hinv'|].
  split.
  { intros k Hk. destruct (Hnew k Hk) as [Hin Hnone].
    split; [exact Hin | now apply dict_get_None]. }
  split.
  { intros r Hin. split; [now apply Hget|].
    apply (encircled_energy_memo s' r (energy r) m nu dx dy Hb').
    now apply Hget. }
  split.
  { intros r.
    destruct (encircled_energy_scalar self self1 r m nu dx dy Hinv Hlazy Hb)
      as (s'' & Hrun' & _).
    now exists s''. }
  intros s r e Hbs Hs. now apply (encircled_energy_memo s r e m nu dx dy).
Qed.

Lemma encircled_energy_vector_witness :
  @psf_inv Fixture.np Fixture.psf0
  /\ @lazy_mtf Fixture.np Fixture.co Fixture.psf0 = (Ok tt, Fixture.psf1)
  /\ built Fixture.psf1 Fixture.mtf22 Fixture.nu1 Fixture.dx1 Fixture.dy1
  /\ exists self' added out,
       @encircled_energy Fixture.np Fixture.co
         (Iterable [1; 0; of_int 2; 1]) Fixture.psf0
       = (Ok (Array out), self')
       /\ length out = 4%nat
       /\ _ee self' = _ee Fixture.psf0 ++ added
       /\ NoDup (keys (_ee self')).
Proof.
  assert (H0 : @psf_inv Fixture.np Fixture.psf0) by apply init_inv.
  assert (H1 : @lazy_mtf Fixture.np Fixture.co Fixture.psf0
               = (Ok tt, Fixture.psf1)) by (vm_compute; reflexivity).
  assert (H2 : built Fixture.psf1 Fixture.mtf22 Fixture.nu1 Fixture.dx1
                 Fixture.dy1) by (repeat split; vm_compute; reflexivity).
  split; [exact H0|]. split; [exact H1|]. split; [exact H2|].
  destruct (encircled_energy_vector Fixture.np Fixture.co Fixture.psf0
              Fixture.psf1 Fixture.mtf22 Fixture.nu1 Fixture.dx1 Fixture.dy1
              [1; 0; of_int 2; 1] H0 H1 H2)
    as (s' & added & out & Hrun & _ & Hlen & Hee & Hnd & _).
  exists s', added, out.
  split; [exact Hrun|]. split; [exact Hlen|]. split; [exact Hee | exact Hnd].
Defined.

(** C4.  After [encircled_energy(r0)] has returned [e0], the pair is in the
    memo, and [ee_radius(e0)] returns the radius of the first memo entry
    whose energy is [e0], with the instance unchanged and whatever the
    minimiser is: it is not run.  When the memoised energies are pairwise
    distinct that radius is [r0].  The same holds of every memoised
    energy. *)
Theorem ee_radius_round_trip :
  forall (NP : NumericPrimitives) (CO : Collaborators) (self0 self : PSF)
         (r0 e0 : Qc),
  encircled_energy (Scalar r0) self0 = (Ok (Float e0), self) ->
  In (r0, e0) (_ee self)
  /\ (exists r' n,
        list_index e0 (values (_ee self)) = Some n
        /\ nth_error (_ee self) n = Some (r', e0)
        /\ forall g, @ee_radius (with_golden NP g) CO e0 self = (Ok r', self))
  /\ (NoDup (values (_ee self)) ->
      forall g, @ee_radius (with_golden NP g) CO e0 self = (Ok r0, self))
  /\ (forall r energy, In (r, energy) (_ee self) ->
      exists r', In (r', energy) (_ee self)
        /\ forall g,
             @ee_radius (with_golden NP g) CO energy self = (Ok r', self)).
Proof.
  intros NP CO self0 self r0 e0 Hrun.
  assert (Hin : In (r0, e0) (_ee self)).
  { apply dict_get_In. now apply (@encircled_energy_ok NP CO self0). }
  split; [exact Hin|]. split; [|split].
  - destruct (ee_radius_memo NP CO self r0 e0 Hin) as (r' & n & _ & Hn & Hd).
    exists r', n. split; [exact Hn|]. split; [exact Hd|]. intros g.
    destruct (ee_radius_memo (with_golden NP g) CO self r0 e0 Hin)
      as (r'' & n' & Hrun' & Hn' & Hd').
    rewrite Hn in Hn'. injection Hn' as <-. rewrite Hd in Hd'.
    injection Hd' as <-. exact Hrun'.
  - intros Hnd g. now apply ee_radius_distinct.
  - intros r energy Hin'.
    destruct (ee_radius_memo NP CO self r energy Hin') as (r' & n & _ & Hn & Hd).
    exists r'. split; [now apply (nth_error_In _ n)|]. intros g.
    destruct (ee_radius_memo (with_golden NP g) CO self r energy Hin')
      as (r'' & n' & Hrun' & Hn' & Hd').
    rewrite Hn in Hn'. injection Hn' as <-. rewrite Hd in Hd'.
    injection Hd' as <-. exact Hrun'.
Qed.

Lemma ee_radius_round_trip_witness :
  @encircled_energy Fixture.np Fixture.co (Scalar 1) Fixture.psf0
  = (Ok (Float Fixture.e1), Fixture.psf2)
  /\ NoDup (values (_ee Fixture.psf2))
  /\ @ee_radius (with_golden Fixture.np Fixture.failing) Fixture.co
       Fixture.e1 Fixture.psf2
     = (Ok 1, Fixture.psf2).
Proof.
  assert (H : @encircled_energy Fixture.np Fixture.co (Scalar 1) Fixture.psf0
              = (Ok (Float Fixture.e1), Fixture.psf2))
    by (vm_compute; reflexivity).
  assert (Hnd : NoDup (values (_ee Fixture.psf2))).
  { vm_compute. repeat constructor; intros []. }
  split; [exact H|]. split; [exact Hnd|].
  exact (proj1 (proj2 (proj2 (ee_radius_round_trip Fixture.np Fixture.co
           Fixture.psf0 Fixture.psf2 1 Fixture.e1 H))) Hnd Fixture.failing).
Defined.

(** *** The diffraction-limited closed form *)

Lemma truediv_ok (a b : Qc) : b <> 0 -> truediv a b = Ok (a / b).
Proof. intros Hb. unfold truediv. now destruct (Qc_eq_dec b 0). Qed.

Lemma analytical_closed (NP : NumericPrimitives) (fno wavelength points : Qc) :
  fno <> 0 -> wavelength <> 0 ->
  _analytical_encircled_energy fno wavelength points
  = Ok (diffraction_energy fno wavelength points).
Proof.
  intros Hf Hw. unfold _analytical_encircled_energy, diffraction_energy.
  rewrite (truediv_ok _ _ Hf). simpl. rewrite (truediv_ok _ _ Hw). simpl.
  replace (points * pi / fno / wavelength)
    with (points * pi / (fno * wavelength)) by (field; now split).
  f_equal. unfold sq. simpl. ring.
Qed.

(** C5, as the code has it.  The diffraction-limited encircled energy
    divides by the F-number and by the wavelength: with the F-number 0 the
    evaluation at [points = 0] raises, it does not return 0. *)
Lemma analytical_energy_zero_fno :
  @_analytical_encircled_energy Fixture.np 0 1 0 = Raise ZeroDivisionError.
Proof. reflexivity. Qed.

(** C5, amended.  For a non-zero F-number and a non-zero wavelength the
    diffraction-limited encircled energy is the closed form
    [1 - J0(p)^2 - J1(p)^2] with [p = points pi / (fno wavelength)];
    [_inverse_analytic_encircled_energy], and [ee_radius_diffraction] with
    the attributes of the instance, hand the minimiser the squared distance
    of exactly this function to the target energy; at [points = 0] the value
    is 0. *)
Theorem analytical_encircled_energy_closed_form :
  forall (NP : NumericPrimitives) (fno wavelength : Qc),
  fno <> 0 -> wavelength <> 0 ->
  (forall points,
     _analytical_encircled_energy fno wavelength points
     = Ok (1 - j0 (points * pi / (fno * wavelength)) ^ 2
             - j1 (points * pi / (fno * wavelength)) ^ 2))
  /\ (forall energy,
        _inverse_analytic_encircled_energy fno wavelength energy
        = fst (golden (fun x =>
                 lift (e <~ _analytical_encircled_energy fno wavelength x ;;
                       Ok (sq (e - energy)))) tt))
  /\ (forall energy x,
        (e <~ _analytical_encircled_energy fno wavelength x ;;
         Ok (sq (e - energy)))
        = Ok ((diffraction_energy fno wavelength x - energy) ^ 2))
  /\ (forall self energy,
        Psf.fno self = Some fno -> Psf.wavelength self = Some wavelength ->
        ee_radius_diffraction energy self
        = (_inverse_analytic_encircled_energy fno wavelength energy, self))
  /\ _analytical_encircled_energy fno wavelength 0 = Ok 0.
Proof.
  intros NP fno wavelength Hf Hw.
  split; [intros points; now apply analytical_closed|].
  split; [reflexivity|].
  split.
  { intros energy x. rewrite (analytical_closed NP _ _ _ Hf Hw). simpl.
    f_equal. unfold sq. simpl. ring. }
  split.
  { intros self energy Hfno Hwl. unfold ee_radius_diffraction, lift.
    now rewrite Hfno, Hwl. }
  rewrite (analytical_closed NP _ _ _ Hf Hw). f_equal.
  unfold diffraction_energy.
  replace (0 * pi / (fno * wavelength)) with 0 by (field; now split).
  rewrite j0_0, j1_0. simpl. ring.
Qed.

Lemma analytical_encircled_energy_closed_form_witness :
  of_int 2 <> 0 /\ Fixture.q 1 2 <> 0
  /\ @_analytical_encircled_energy Fixture.np (of_int 2) (Fixture.q 1 2) 0
     = Ok 0.
Proof.
  assert (Hf : of_int 2 <> 0).
  { intros H. apply (f_equal this) in H. vm_compute in H. discriminate. }
  assert (Hw : Fixture.q 1 2 <> 0).
  { intros H. apply (f_equal this) in H. vm_compute in H. discriminate. }
  split; [exact Hf|]. split; [exact Hw|].
  exact (proj2 (proj2 (proj2 (proj2
    (analytical_encircled_energy_closed_form Fixture.np (of_int 2)
       (Fixture.q 1 2) Hf Hw))))).
Defined.

(** *** The axis limit of [plot_encircled_energy] *)

Lemma plot_rejects_empty_memo (NP : NumericPrimitives) (CO : Collaborators)
  (self : PSF) (npts : nat) :
  _ee self = [] ->
  plot_encircled_energy None npts self
  = (Raise (ValueError "if no values for encircled energy have been computed, axlim must be provided"), self).
Proof. intros H. unfold plot_encircled_energy. now rewrite H. Qed.

(** C8.  The int 0 as axis limit is rejected at once and leaves the
    instance as it was, and so is a missing limit when the memo is empty;
    the float 0.0 is not the object [0], passes the identity test
    [axlim is 0], and the energies of [linspace(1e-5, 0.0, npts)] are
    computed and memoised: on a new instance with three points the call
    returns and leaves three entries. *)
Theorem plot_encircled_energy_zero_limit :
  forall (NP : NumericPrimitives) (CO : Collaborators) (self : PSF)
         (npts : nat),
  plot_encircled_energy (Some (PyInt 0)) npts self
  = (Raise (ValueError "computing from 0 to 0 is stupid"), self)
  /\ (_ee self = [] ->
      plot_encircled_energy None npts self
      = (Raise (ValueError "if no values for encircled energy have been computed, axlim must be provided"), self))
  /\ plot_encircled_energy (Some (PyFloat 0)) npts self
     = (ys <- encircled_energy (Iterable (linspace plot_start 0 npts)) ;;
        ret (mkPlot (linspace plot_start 0 npts) ys (Some (PyFloat 0)))) self
  /\ is_ok (fst (@plot_encircled_energy Fixture.np Fixture.co
                   (Some (PyFloat 0)) 3 Fixture.psf0)) = true
  /\ length (_ee (snd (@plot_encircled_energy Fixture.np Fixture.co
                         (Some (PyFloat 0)) 3 Fixture.psf0))) = 3%nat.
Proof.
  intros NP CO self npts.
  split; [reflexivity|].
  split; [now apply plot_rejects_empty_memo|].
  split; [reflexivity|].
  split; vm_compute; reflexivity.
Qed.

End PsfFacts.

(* ------------------------------------------------------------------------- *)
(** ** mtf_utils.py: focus tracing and the full-field display *)
(* ------------------------------------------------------------------------- *)

Module MtfFacts.

Import MtfUtils Spec PyFacts.
Local Open Scope Qc_scope.
Local Open Scope py_scope.

(** *** Reductions along the focus axis *)

Lemma Qcltb_true (a b : Qc) : Qcltb a b = true <-> a < b.
Proof.
  unfold Qcltb. destruct (Qclt_le_dec a b) as [H|H].
  - tauto.
  - split; [discriminate|]. intros Hlt. exfalso. now apply (Qcle_not_lt b a).
Qed.

Lemma Qcltb_false (a b : Qc) : Qcltb a b = false <-> b <= a.
Proof.
  unfold Qcltb. destruct (Qclt_le_dec a b) as [H|H].
  - split; [discriminate|]. intros Hle. exfalso. now apply (Qcle_not_lt b a).
  - tauto.
Qed.

Lemma Qcmax_l (a b : Qc) : a <= Qcmax a b.
Proof.
  unfold Qcmax. destruct (Qcltb a b) eqn:H.
  - apply Qclt_le_weak. now apply Qcltb_true.
  - apply Qcle_refl.
Qed.

Lemma Qcmax_r (a b : Qc) : b <= Qcmax a b.
Proof.
  unfold Qcmax. destruct (Qcltb a b) eqn:H.
  - apply Qcle_refl.
  - now apply Qcltb_false.
Qed.

Lemma fold_max_ge_init (v : arr1) (a : Qc) : a <= fold_left Qcmax v a.
Proof.
  revert a. induction v as [|w v IH]; intros a; simpl.
  - apply Qcle_refl.
  - apply Qcle_trans with (Qcmax a w); [apply Qcmax_l | apply IH].
Qed.

Lemma fold_max_ge (v : arr1) (a w : Qc) :
  In w v -> w <= fold_left Qcmax v a.
Proof.
  revert a. induction v as [|u v IH]; intros a; simpl; [tauto|].
  intros [->|Hin].
  - apply Qcle_trans with (Qcmax a w); [apply Qcmax_r | apply fold_max_ge_init].
  - now apply IH.
Qed.

Lemma fold_max_In (v : arr1) (a : Qc) :
  fold_left Qcmax v a = a \/ In (fold_left Qcmax v a) v.
Proof.
  revert a. induction v as [|w v IH]; intros a; simpl; [now left|].
  destruct (IH (Qcmax a w)) as [H|H].
  - rewrite H. unfold Qcmax. destruct (Qcltb a w); [right; now left | now left].
  - right. now right.
Qed.

Lemma scan0_fst (k : nat) (v : arr1) (b : Qc * nat) :
  fst (scan0 gt_max k v b) = fold_left Qcmax v (fst b).
Proof.
  revert k b. induction v as [|w v IH]; intros k b; simpl; [reflexivity|].
  rewrite IH. f_equal. unfold better, gt_max, Qcmax.
  now destruct (Qcltb (fst b) w).
Qed.

Lemma scan0_snd (v : arr1) : forall (k : nat) (bv : Qc) (bi : nat),
  snd (scan0 gt_max k v (bv, bi)) =
  if Qcltb bv (fold_left Qcmax v bv)
  then (k + match list_index (fold_left Qcmax v bv) v with
            | Some p => p
            | None => 0
            end)%nat
  else bi.
Proof.
  induction v as [|w v IH]; intros k bv bi; simpl.
  - assert (H : Qcltb bv bv = false) by (apply Qcltb_false, Qcle_refl).
    now rewrite H.
  - change (better gt_max k w (bv, bi))
      with (if Qcltb bv w then (w, k) else (bv, bi)).
    change (Qcmax bv w) with (if Qcltb bv w then w else bv).
    destruct (Qcltb bv w) eqn:Hbw.
    + rewrite IH.
      set (M := fold_left Qcmax v w).
      assert (HM : w <= M) by apply fold_max_ge_init.
      assert (HbM : Qcltb bv M = true).
      { apply Qcltb_true. apply Qclt_le_trans with w; [now apply Qcltb_true | exact HM]. }
      rewrite HbM.
      destruct (Qcltb w M) eqn:HwM.
      * destruct (Qc_eq_dec w M) as [Heq|Hne].
        { apply Qcltb_true in HwM. rewrite Heq in HwM.
          exfalso. exact (Qcle_not_lt _ _ (Qcle_refl M) HwM). }
        destruct (fold_max_In v w) as [Hfm|Hfm]; [fold M in Hfm; congruence|].
        fold M in Hfm. destruct (list_index_In _ _ Hfm) as [p Hp].
        rewrite Hp. simpl. lia.
      * apply Qcltb_false in HwM.
        assert (Heq : w = M) by (now apply Qcle_antisym).
        destruct (Qc_eq_dec w M); [simpl; lia | congruence].
    + rewrite IH.
      set (M := fold_left Qcmax v bv).
      destruct (Qcltb bv M) eqn:HbM; [|reflexivity].
      destruct (Qc_eq_dec w M) as [Heq|Hne].
      { apply Qcltb_true in HbM. apply Qcltb_false in Hbw. rewrite <- Heq in HbM.
        exfalso. now apply (Qcle_not_lt w bv). }
      destruct (fold_max_In v bv) as [Hfm|Hfm]; fold M in Hfm.
      { apply Qcltb_true in HbM. rewrite Hfm in HbM.
        exfalso. exact (Qcle_not_lt _ _ (Qcle_refl bv) HbM). }
      destruct (list_index_In _ _ Hfm) as [p Hp].
      rewrite Hp. simpl. lia.
Qed.

Lemma arg1_index_of_max (w : Qc) (v : arr1) :
  snd (scan0 gt_max 1 v (start w)) = index_of_max (w :: v).
Proof.
  unfold start. rewrite scan0_snd. unfold index_of_max, maximum.
  set (M := fold_left Qcmax v w). simpl list_index.
  destruct (Qcltb w M) eqn:HwM.
  - destruct (Qc_eq_dec w M) as [Heq|Hne].
    { apply Qcltb_true in HwM. rewrite Heq in HwM.
      exfalso. exact (Qcle_not_lt _ _ (Qcle_refl M) HwM). }
    destruct (fold_max_In v w) as [Hfm|Hfm]; fold M in Hfm; [congruence|].
    destruct (list_index_In _ _ Hfm) as [p Hp]. rewrite Hp. reflexivity.
  - apply Qcltb_false in HwM.
    assert (Heq : w = M) by (apply Qcle_antisym; [apply fold_max_ge_init | exact HwM]).
    now destruct (Qc_eq_dec w M).
Qed.

Lemma length_map2 {A B C : Type} (f : A -> B -> C) (a : list A) (b : list B) :
  length (map2 f a b) = Nat.min (length a) (length b).
Proof.
  revert b. induction a as [|u a IH]; intros [|v b]; simpl; auto.
Qed.

Lemma nth_map2 {A B C : Type} (f : A -> B -> C) (a : list A) (b : list B)
  (i : nat) (da : A) (db : B) (dc : C) :
  (i < length a)%nat -> (i < length b)%nat ->
  nth i (map2 f a b) dc = f (nth i a da) (nth i b db).
Proof.
  revert b i. induction a as [|u a IH]; intros [|v b] i; simpl; try lia.
  destruct i as [|i]; [reflexivity|]. intros Ha Hb. apply IH; lia.
Qed.

Lemma shape2_row {A : Type} (n1 n2 : nat) (p : list (list A)) (i : nat) :
  shape2 n1 n2 p -> (i < n1)%nat -> length (nth i p []) = n2.
Proof.
  intros [Hlen Hrows] Hi. rewrite Forall_forall in Hrows.
  apply Hrows, nth_In. lia.
Qed.

Lemma shape2_map2 {A B C : Type} (f : A -> B -> C) (n1 n2 : nat)
  (p : list (list A)) (b : list (list B)) :
  shape2 n1 n2 p -> shape2 n1 n2 b -> shape2 n1 n2 (map2 (map2 f) p b).
Proof.
  intros [Hp Hpr] [Hb Hbr]. split.
  - rewrite length_map2. lia.
  - clear Hp Hb. revert b Hbr. induction Hpr as [|r p Hr Hpr IH]; intros [|rb b] Hbr; simpl; constructor.
    + inversion Hbr; subst. rewrite length_map2. lia.
    + inversion Hbr; subst. now apply IH.
Qed.

Lemma scan2_cell (n1 n2 : nat) (planes : arr3) :
  forall (k : nat) (b : list (list (Qc * nat))) (i j : nat) (d : Qc * nat),
  Forall (shape2 n1 n2) planes -> shape2 n1 n2 b ->
  (i < n1)%nat -> (j < n2)%nat ->
  shape2 n1 n2 (scan2 gt_max k planes b)
  /\ nth j (nth i (scan2 gt_max k planes b) []) d
     = scan0 gt_max k (through_focus planes i j) (nth j (nth i b []) d).
Proof.
  induction planes as [|p planes IH]; intros k b i j d Hp Hb Hi Hj; simpl.
  - now split.
  - inversion Hp as [|? ? Hp1 Hp2]; subst.
    assert (Hb' : shape2 n1 n2 (map2 (map2 (better gt_max k)) p b))
      by now apply shape2_map2.
    destruct (IH (S k) _ i j d Hp2 Hb' Hi Hj) as [Hs Hc].
    split; [exact Hs|]. rewrite Hc. f_equal.
    rewrite (nth_map2 _ p b i [] [] []) by (destruct Hp1, Hb; lia).
    apply nth_map2.
    + now rewrite (shape2_row n1 n2 p i).
    + now rewrite (shape2_row n1 n2 b i).
Qed.

Lemma list_tabulate {A : Type} (l : list A) (n : nat) (f : nat -> A) (d : A) :
  length l = n -> (forall i, (i < n)%nat -> nth i l d = f i) ->
  l = map f (seq 0 n).
Proof.
  intros Hlen Hnth. apply (nth_ext _ _ d (f 0%nat)).
  - now rewrite length_map, length_seq.
  - intros i Hi. rewrite Hlen in Hi. rewrite (map_nth f), seq_nth by assumption.
    now apply Hnth.
Qed.

Lemma shape2_map {A B : Type} (g : A -> B) (n1 n2 : nat) (p : list (list A)) :
  shape2 n1 n2 p -> shape2 n1 n2 (map (map g) p).
Proof.
  intros [Hp Hr]. split; [now rewrite length_map|].
  apply Forall_map. revert Hr. apply Forall_impl. intros row Hrow.
  now rewrite length_map.
Qed.

Lemma scan2_shape (n1 n2 : nat) (planes : arr3) :
  forall (k : nat) (b : list (list (Qc * nat))),
  Forall (shape2 n1 n2) planes -> shape2 n1 n2 b ->
  shape2 n1 n2 (scan2 gt_max k planes b).
Proof.
  induction planes as [|p planes IH]; intros k b Hp Hb; simpl; [exact Hb|].
  inversion Hp; subst. apply IH; [assumption|]. now apply shape2_map2.
Qed.

(** The arg-maximum along the focus axis, cell by cell. *)
Lemma arg_axis0_3d_cells (n1 n2 : nat) (p : list (list Qc)) (planes : arr3) :
  Forall (shape2 n1 n2) (p :: planes) ->
  arg_axis0_3d gt_max (p :: planes)
  = Ok (map (fun i =>
               map (fun j => index_of_max (through_focus (p :: planes) i j))
                   (seq 0 n2))
            (seq 0 n1)).
Proof.
  intros Hshape. inversion Hshape as [|? ? Hp Hplanes]; subst.
  unfold arg_axis0_3d. f_equal.
  assert (Hb : shape2 n1 n2 (map (map start) p)) by now apply shape2_map.
  pose proof (scan2_shape n1 n2 planes 1 _ Hplanes Hb) as Hs.
  apply (list_tabulate _ _ _ []).
  - rewrite length_map. apply Hs.
  - intros i Hi.
    change (@nil nat) with (map (@snd Qc nat) []).
    rewrite (map_nth (map (@snd Qc nat))).
    apply (list_tabulate _ _ _ 0%nat).
    + rewrite length_map. now apply (shape2_row n1 n2).
    + intros j Hj.
      match goal with
      | |- nth j (map snd ?L) _ = _ =>
          pose proof (map_nth (@snd Qc nat) L (start 0) j) as Hm
      end.
      change (snd (start 0)) with 0%nat in Hm. rewrite Hm. clear Hm.
      destruct (scan2_cell n1 n2 planes 1 _ i j (start 0) Hplanes Hb Hi Hj)
        as [_ Hc].
      rewrite Hc.
      change (@nil (Qc * nat)) with (map start []). rewrite map_nth.
      rewrite (map_nth start). apply arg1_index_of_max.
Qed.

Lemma index_of_max_lt (v : arr1) : v <> [] -> (index_of_max v < length v)%nat.
Proof.
  intros Hne. unfold index_of_max.
  destruct (list_index (maximum v) v) as [n|] eqn:Hn.
  - destruct (list_index_first _ _ _ Hn) as [Hnth _].
    apply nth_error_Some. congruence.
  - destruct v; [congruence | simpl; lia].
Qed.

Lemma through_focus_length (c : arr3) (i j : nat) :
  length (through_focus c i j) = length c.
Proof. apply length_map. Qed.

Lemma sum_indices_bound (N : nat) (l : list nat) :
  Forall (fun k => (k < N)%nat) l ->
  (fold_right Nat.add 0 l + length l <= N * length l)%nat.
Proof.
  induction 1 as [|k l Hk Hl IH]; simpl; [lia|]. nia.
Qed.

Lemma this_of_int (z : Z) : (this (of_int z) == inject_Z z)%Q.
Proof. unfold of_int. cbv [this Q2Qc]. apply Qred_correct. Qed.

Lemma this_average (l : list nat) :
  (this (average l)
   == inject_Z (Z.of_nat (fold_right Nat.add 0%nat l))
      / inject_Z (Z.of_nat (length l)))%Q.
Proof.
  unfold average, Qcdiv, Qcmult, Qcinv, of_int. cbv [this Q2Qc].
  rewrite !Qred_correct. reflexivity.
Qed.

(** The average of focus indices below [N] lies between two samples both
    below [N]. *)
Lemma average_brackets (N : nat) (l : list nat) :
  l <> [] -> Forall (fun k => (k < N)%nat) l ->
  (0 <= Qfloor (average l))%Z
  /\ (Qfloor (average l) <= Qceiling (average l))%Z
  /\ (Qceiling (average l) < Z.of_nat N)%Z.
Proof.
  intros Hne Hall.
  pose proof (sum_indices_bound N l Hall) as Hsum.
  set (s := fold_right Nat.add 0%nat l) in *.
  assert (Hn : (0 < length l)%nat) by (destruct l; [congruence | simpl; lia]).
  assert (Hpos : (0 < inject_Z (Z.of_nat (length l)))%Q).
  { rewrite <- (Zlt_Qlt 0). lia. }
  assert (Hlo : (0 <= this (average l))%Q).
  { rewrite this_average. apply Qle_shift_div_l; [exact Hpos|].
    rewrite Qmult_0_l. rewrite <- (Zle_Qle 0). lia. }
  assert (Hhi : (this (average l) <= inject_Z (Z.of_nat N - 1))%Q).
  { rewrite this_average. apply Qle_shift_div_r; [exact Hpos|].
    rewrite <- inject_Z_mult, <- Zle_Qle. nia. }
  split; [|split].
  - apply Qfloor_resp_le in Hlo. exact Hlo.
  - rewrite Zle_Qle. apply Qle_floor_ceiling.
  - apply Qceiling_resp_le in Hhi. rewrite Qceiling_Z in Hhi. lia.
Qed.

Lemma getitem_in_range {A : Type} (l : list A) (z : Z) (d : A) :
  (0 <= z < Z.of_nat (length l))%Z ->
  getitem l z = Ok (nth (Z.to_nat z) l d).
Proof.
  intros Hz. unfold getitem.
  destruct (Z.ltb_spec z 0); [lia|]. destruct (Z.ltb_spec z 0); [lia|].
  destruct (nth_error l (Z.to_nat z)) as [a|] eqn:Ha.
  - now rewrite (nth_error_nth _ _ d Ha).
  - apply nth_error_None in Ha. lia.
Qed.

Lemma interpolate_bracket (focus : arr1) (l : list nat) :
  l <> [] -> Forall (fun k => (k < length focus)%nat) l ->
  interpolate focus (mean l) = Ok (bracket focus (average l)).
Proof.
  intros Hne Hall.
  destruct (average_brackets _ l Hne Hall) as (H0 & Hfc & HN).
  assert (Hmean : mean l = Some (average l)) by (destruct l; [congruence | reflexivity]).
  rewrite Hmean. unfold interpolate, floor, ceil, bracket, mod1.
  cbn [rbind].
  rewrite (getitem_in_range focus (Qfloor (average l)) 0) by lia.
  rewrite (getitem_in_range focus (Qceiling (average l)) 0) by lia.
  reflexivity.
Qed.

Lemma mapM_map {A B C : Type} (f : B -> result C) (h : A -> B) (k : A -> C)
  (l : list A) :
  (forall a, In a l -> f (h a) = Ok (k a)) ->
  mapM f (map h l) = Ok (map k l).
Proof.
  induction l as [|a l IH]; intros H; simpl; [reflexivity|].
  rewrite (H a) by now left. simpl. rewrite IH by (intros; apply H; now right).
  reflexivity.
Qed.

Lemma tl_map_seq {A : Type} (g : nat -> A) (n : nat) :
  tl (map g (seq 0 n)) = map g (seq 1 (n - 1)).
Proof. destruct n; simpl; [reflexivity|]. now rewrite Nat.sub_0_r. Qed.

Lemma maximum_In (v : arr1) : v <> [] -> In (maximum v) v.
Proof.
  destruct v as [|w v]; [congruence|]. intros _. simpl.
  destruct (fold_max_In v w) as [H|H]; [left; now rewrite H | now right].
Qed.

Lemma maximum_ge (v : arr1) (w : Qc) : In w v -> w <= maximum v.
Proof.
  destruct v as [|u v]; simpl; [tauto|].
  intros [->|Hin]; [apply fold_max_ge_init | now apply fold_max_ge].
Qed.

(** A strict peak is where the maximum is first reached. *)
Lemma index_of_max_peak (v : arr1) (k : nat) :
  (k < length v)%nat ->
  (forall k', (k' < length v)%nat -> k' <> k -> nth k' v 0 < nth k v 0) ->
  index_of_max v = k.
Proof.
  intros Hk Hpeak.
  assert (Hne : v <> []) by (destruct v; [simpl in Hk; lia | discriminate]).
  unfold index_of_max.
  destruct (list_index_In _ _ (maximum_In v Hne)) as [n Hn]. rewrite Hn.
  destruct (list_index_first _ _ _ Hn) as [Hnth _].
  assert (Hlt : (n < length v)%nat) by (apply nth_error_Some; congruence).
  destruct (Nat.eq_dec n k) as [|Hnk]; [assumption|].
  exfalso. specialize (Hpeak n Hlt Hnk).
  rewrite (nth_error_nth _ _ 0 Hnth) in Hpeak.
  apply (Qcle_not_lt (nth k v 0) (maximum v)); [|exact Hpeak].
  apply maximum_ge, nth_In, Hk.
Qed.

Lemma average_constant (k : nat) (l : list nat) :
  l <> [] -> Forall (fun x => x = k) l -> average l = of_int (Z.of_nat k).
Proof.
  intros Hne Hall. apply Qc_is_canon.
  rewrite this_average, this_of_int.
  assert (Hsum : fold_right Nat.add 0%nat l = (k * length l)%nat).
  { induction Hall as [|x l -> _ IH]; simpl; [lia|].
    destruct l as [|y l].
    - simpl. lia.
    - rewrite IH by discriminate. simpl. lia. }
  rewrite Hsum, Nat2Z.inj_mul, inject_Z_mult.
  assert (Hn : ~ (inject_Z (Z.of_nat (length l)) == 0)%Q).
  { destruct l; [congruence|]. intros H.
    apply (Qeq_eq_bool) in H. discriminate. }
  field. exact Hn.
Qed.

Lemma bracket_on_sample (focus : arr1) (k : nat) :
  bracket focus (of_int (Z.of_nat k)) = nth k focus 0.
Proof.
  unfold bracket.
  rewrite (Qfloor_comp _ _ (this_of_int _)), Qfloor_Z.
  rewrite (Qceiling_comp _ _ (this_of_int _)), Qceiling_Z.
  rewrite Nat2Z.id. ring.
Qed.

Lemma averaged_channels_cases (f0 : Qc) (rest : arr1) :
  averaged_channels (f0 :: rest)
  = if Qc_eq_dec f0 0 then seq 1 (length (f0 :: rest) - 1)
    else seq 0 (length (f0 :: rest)).
Proof. reflexivity. Qed.

Lemma trace_focus_average_ok (c : MTFvFvF) (algorithm : string) :
  algorithm = "avg"%string \/ algorithm = "average"%string ->
  cube_shape c -> focus c <> [] -> averaged_channels (freq c) <> [] ->
  trace_focus c algorithm = Ok (trace_focus_average c, field c).
Proof.
  intros Halg [Hlen Hshape] Hfocus Hchan.
  assert (Hbranch : trace_focus c algorithm
    = (f0 <~ getitem (freq c) 0 ;;
       avg_idxs <~
         (if Qc_eq_dec f0 0 then
            rmap (fun a => map mean (map (@tl nat) a))
                 (arg_axis0_3d gt_max (data c))
          else rmap (map mean) (arg_axis0_3d gt_max (data c))) ;;
       focus_out <~ mapM (interpolate (focus c)) avg_idxs ;;
       Ok (focus_out, field c))).
  { destruct Halg as [-> | ->]; reflexivity. }
  rewrite Hbranch. clear Hbranch.
  destruct (freq c) as [|f0 rest] eqn:Hfreq; [now elim Hchan|].
  destruct (data c) as [|p planes] eqn:Hdata.
  { destruct (focus c); [congruence | discriminate]. }
  unfold trace_focus_average, average_index. rewrite Hdata, Hfreq.
  rewrite averaged_channels_cases in *.
  set (n1 := length (field c)) in *. set (n2 := length (f0 :: rest)) in *.
  change (getitem (f0 :: rest) 0) with (Ok f0). cbn [rbind].
  rewrite (arg_axis0_3d_cells n1 n2 p planes Hshape).
  set (g := fun i j => index_of_max (through_focus (p :: planes) i j)).
  assert (Hg : forall i j, (g i j < length (focus c))%nat).
  { intros i j. unfold g. rewrite <- Hlen, <- (through_focus_length (p :: planes) i j).
    apply index_of_max_lt. discriminate. }
  assert (Hall : forall i chans,
            Forall (fun k => (k < length (focus c))%nat) (map (g i) chans)).
  { intros i chans. apply Forall_map, Forall_forall. intros j _. apply Hg. }
  destruct (Qc_eq_dec f0 0) as [Hz|Hnz]; unfold rmap; cbn [rbind].
  - rewrite !map_map.
    rewrite (mapM_map (interpolate (focus c)) _
               (fun i => bracket (focus c) (average (map (g i) (seq 1 (n2 - 1)))))).
    + reflexivity.
    + intros i _. rewrite tl_map_seq. apply interpolate_bracket; [|apply Hall].
      intros H. apply map_eq_nil in H. contradiction.
  - rewrite !map_map.
    rewrite (mapM_map (interpolate (focus c)) _
               (fun i => bracket (focus c) (average (map (g i) (seq 0 n2))))).
    + reflexivity.
    + intros i _. apply interpolate_bracket; [|apply Hall].
      intros H. apply map_eq_nil in H. contradiction.
Qed.

Lemma map_const_seq {A B : Type} (x : B) (l : list A) :
  map (fun _ => x) (seq 0 (length l)) = map (fun _ => x) l.
Proof.
  generalize 0%nat. induction l as [|a l IH]; intros s; simpl; [reflexivity|].
  now rewrite IH.
Qed.

Lemma averaged_channels_lt (freq : arr1) (j : nat) :
  In j (averaged_channels freq) -> (j < length freq)%nat.
Proof.
  destruct freq as [|f0 rest]; [intros []|].
  rewrite averaged_channels_cases.
  destruct (Qc_eq_dec f0 0); rewrite in_seq; simpl; lia.
Qed.

Lemma trace_focus_average_peak (c : MTFvFvF) (k : nat) :
  cube_shape c -> averaged_channels (freq c) <> [] -> peaks_at c k ->
  trace_focus_average c = map (fun _ => nth k (focus c) 0) (field c).
Proof.
  intros [Hlen _] Hchan [Hk Hpeak].
  unfold trace_focus_average. rewrite <- (map_const_seq _ (field c)).
  apply map_ext_in. intros i Hi. apply in_seq in Hi.
  unfold average_index. rewrite (average_constant k).
  - apply bracket_on_sample.
  - intros H. apply map_eq_nil in H. contradiction.
  - apply Forall_map, Forall_forall. intros j Hj.
    apply averaged_channels_lt in Hj.
    apply index_of_max_peak.
    + rewrite through_focus_length. lia.
    + intros k' Hk' Hne. apply Hpeak; try lia; try assumption.
      rewrite through_focus_length in Hk'. lia.
Qed.

(** *** Algorithm 'avg' *)

(** C2, as the code has it.  On a cube whose only frequency channel is the
    zero frequency, channel 0 is excluded and nothing is left to average:
    the mean is [nan] and the trace raises, although the cube has the shape
    of its axes and its MTF peaks at the on-sample focus index 1 for every
    field and frequency. *)
Lemma trace_focus_zero_frequency_only :
  cube_shape Fixture.cube_dc
  /\ peaks_at Fixture.cube_dc 1
  /\ averaged_channels (freq Fixture.cube_dc) = []
  /\ trace_focus Fixture.cube_dc "avg"
     = Raise (ValueError "cannot convert float NaN to integer").
Proof.
  split; [|split; [|split; reflexivity]].
  - split; [reflexivity|]. repeat constructor.
  - split; [simpl; lia|]. intros i j k' Hi Hj Hk' Hne. simpl in Hi, Hj, Hk'.
    assert (i = 0%nat) by lia. assert (j = 0%nat) by lia. subst.
    destruct k' as [|[|[|k']]]; try lia; reflexivity.
Qed.

(** C2, amended.  For a cube that has the shape of its axes, at least one
    focus sample and at least one averaged channel (every frequency, without
    channel 0 when [freq[0] == 0]), the algorithms 'avg' and 'average'
    return, for each field index, the focus interpolated at the average over
    those channels of the focus index of maximum MTF:
    [focus[floor(idx)] + (focus[ceil(idx)] - focus[floor(idx)]) * (idx mod 1)],
    paired with the field axis.  When the MTF peaks at one focus index for
    every field and frequency, every entry is the focus coordinate at that
    index. *)
Theorem trace_focus_average_spec :
  forall (c : MTFvFvF) (algorithm : string),
  algorithm = "avg"%string \/ algorithm = "average"%string ->
  cube_shape c -> focus c <> [] -> averaged_channels (freq c) <> [] ->
  trace_focus c algorithm
  = Ok (map (fun i =>
               bracket (focus c) (average_index (data c) (freq c) i))
            (seq 0 (length (field c))),
        field c)
  /\ (forall k, peaks_at c k ->
        trace_focus c algorithm
        = Ok (map (fun _ => nth k (focus c) 0) (field c), field c)).
Proof.
  intros c algorithm Halg Hshape Hfocus Hchan.
  pose proof (trace_focus_average_ok c algorithm Halg Hshape Hfocus Hchan)
    as Hrun.
  split; [exact Hrun|].
  intros k Hpeak. rewrite Hrun.
  now rewrite (trace_focus_average_peak c k Hshape Hchan Hpeak).
Qed.

Lemma trace_focus_average_spec_witness :
  ("avg"%string = "avg"%string \/ "avg"%string = "average"%string)
  /\ cube_shape Fixture.cube_flat
  /\ focus Fixture.cube_flat <> []
  /\ averaged_channels (freq Fixture.cube_flat) <> []
  /\ peaks_at Fixture.cube_flat 2
  /\ trace_focus Fixture.cube_flat "avg"
     = Ok (map (fun _ => nth 2 (focus Fixture.cube_flat) 0)
               (field Fixture.cube_flat),
           field Fixture.cube_flat).
Proof.
  assert (H1 : "avg"%string = "avg"%string \/ "avg"%string = "average"%string)
    by (left; reflexivity).
  assert (H2 : cube_shape Fixture.cube_flat)
    by (split; [reflexivity | repeat constructor]).
  assert (H3 : focus Fixture.cube_flat <> []) by discriminate.
  assert (H4 : averaged_channels (freq Fixture.cube_flat) <> [])
    by (vm_compute; discriminate).
  assert (H5 : peaks_at Fixture.cube_flat 2).
  { split; [simpl; lia|]. intros i j k' Hi Hj Hk' Hne. simpl in Hi, Hj, Hk'.
    destruct i as [|[|i]]; try lia;
      destruct j as [|[|j]]; try lia;
      destruct k' as [|[|[|[|[|k']]]]]; try lia; reflexivity. }
  split; [exact H1|]. split; [exact H2|]. split; [exact H3|].
  split; [exact H4|]. split; [exact H5|].
  exact (proj2 (trace_focus_average_spec Fixture.cube_flat "avg" H1 H2 H3 H4)
           2%nat H5).
Defined.

(** *** Algorithm names *)

(** C7, as the code has it.  The name is compared after [lower()]: 'AVG' is
    outside {'0.5', 'avg', 'average'} and is traced as 'avg' is, without an
    error. *)
Lemma trace_focus_upper_case_name :
  trace_focus Fixture.cube_flat "AVG" = trace_focus Fixture.cube_flat "avg"
  /\ is_ok (trace_focus Fixture.cube_flat "AVG") = true.
Proof. split; vm_compute; reflexivity. Qed.

(** C7, amended.  A name that is not '0.5' and whose lower-case form is
    neither 'avg' nor 'average' raises the ValueError with the message
    '0.5 is only algorithm supported', for every cube, and nothing is
    returned. *)
Theorem trace_focus_unsupported :
  forall (c : MTFvFvF) (algorithm : string),
  algorithm <> "0.5"%string ->
  lower algorithm <> "avg"%string ->
  lower algorithm <> "average"%string ->
  trace_focus c algorithm
  = Raise (ValueError "0.5 is only algorithm supported").
Proof.
  intros c algorithm H05 Havg Haverage. unfold trace_focus.
  apply String.eqb_neq in H05, Havg, Haverage.
  now rewrite H05, Havg, Haverage.
Qed.

Lemma trace_focus_unsupported_witness :
  "bogus"%string <> "0.5"%string
  /\ lower "bogus" <> "avg"%string
  /\ lower "bogus" <> "average"%string
  /\ trace_focus Fixture.cube_flat "bogus"
     = Raise (ValueError "0.5 is only algorithm supported").
Proof.
  assert (H1 : "bogus"%string <> "0.5"%string) by discriminate.
  assert (H2 : lower "bogus" <> "avg"%string) by discriminate.
  assert (H3 : lower "bogus" <> "average"%string) by discriminate.
  split; [exact H1|]. split; [exact H2|]. split; [exact H3|].
  exact (trace_focus_unsupported Fixture.cube_flat "bogus" H1 H2 H3).
Defined.

(** *** Algorithm '0.5' *)

(** C3, on the code.  In the '0.5' branch the on-axis slice
    [data[:, idx_axis, :]] has two axes and its maximum over focus has one;
    [argmin(axis=1)] of that vector raises, so the branch returns for no
    cube: when the slice and its maximum exist the error is the axis error,
    as on the cube of the specification's example. *)
Theorem trace_focus_half_raises :
  forall (c : MTFvFvF),
  is_ok (trace_focus c "0.5") = false
  /\ (forall on_axis peak,
        take_field (data c) (searchsorted (field c) 0) = Ok on_axis ->
        max_axis0 on_axis = Ok peak ->
        trace_focus c "0.5" = Raise (AxisError 1 1))
  /\ trace_focus Fixture.cube_flat "0.5" = Raise (AxisError 1 1).
Proof.
  intros c. split; [|split].
  - unfold trace_focus. simpl String.eqb. cbv iota.
    destruct (take_field _ _) as [on_axis|e]; [|reflexivity]. simpl.
    destruct (max_axis0 on_axis) as [peak|e]; reflexivity.
  - intros on_axis peak H1 H2. unfold trace_focus. simpl String.eqb.
    cbv iota. rewrite H1. simpl. now rewrite H2.
  - reflexivity.
Qed.

(** *** The return request of the full-field display *)

Lemma from_trioptics_files_tan_sag (CO : Collaborators) (paths : list string)
  (azimuths : list Qc) (upsample : nat) (r : interpolated) (farr0 : arr1) :
  interpolate_fields paths azimuths upsample = Ok r ->
  getitem (farr r) 0 = Ok farr0 ->
  from_trioptics_files paths azimuths upsample (Tuple ["tan"; "sag"]%string)
  = Ok (mkMTFFFD (tan r) (out_x r) (out_y r) farr0,
        mkMTFFFD (sag r) (out_x r) (out_y r) farr0).
Proof.
  intros Hr Hf. unfold from_trioptics_files. rewrite Hr. simpl.
  now rewrite Hf.
Qed.

(** C9, on the code.  [('tan', 'sag')] returns the two displays.  For any
    other request, once the interpolation has run, the function evaluates
    [NotImplemented(...)], and calling that constant raises a TypeError: the
    error is not a not-implemented error.  [from_dataframe] fails the same
    way. *)
Theorem from_trioptics_files_other_request :
  forall (CO : Collaborators) (paths : list string) (azimuths : list Qc)
         (upsample : nat) (ret : ret_arg) (df : list (list Qc))
         (azimuth : string),
  (forall r,
     interpolate_fields paths azimuths upsample = Ok r ->
     is_tan_sag ret = false ->
     from_trioptics_files paths azimuths upsample ret
     = Raise (TypeError "'NotImplementedType' object is not callable"))
  /\ from_dataframe df azimuth
     = Raise (TypeError "'NotImplementedType' object is not callable")
  /\ @from_trioptics_files Fixture.co_mtf ["a"; "b"]%string [0; of_int 90] 1
       (Tuple ["tan"]%string)
     = Raise (TypeError "'NotImplementedType' object is not callable")
  /\ is_ok (@from_trioptics_files Fixture.co_mtf ["a"; "b"]%string
              [0; of_int 90] 1 (Tuple ["tan"; "sag"]%string)) = true.
Proof.
  intros CO paths azimuths upsample ret df azimuth.
  split; [|split; [reflexivity|split; vm_compute; reflexivity]].
  intros r Hr Hret. unfold from_trioptics_files. rewrite Hr. simpl.
  now rewrite Hret.
Qed.

End MtfFacts.

(* ------------------------------------------------------------------------- *)
(** ** psf.py: further properties *)
(* ------------------------------------------------------------------------- *)

From Stdlib Require Import Sorted Lqa.

Module PsfExtra.

Import Psf PsfMore Inv Spec PyFacts PsfFacts.
Local Open Scope Qc_scope.
Local Open Scope py_scope.

(** *** The first use of an instance *)

Lemma getitem2_mesh_y (x y : arr1) (i : nat) :
  getitem2 (snd (meshgrid x y)) i 0
  = match nth_error y i, x with
    | Some yi, _ :: _ => Ok yi
    | _, _ => Raise IndexError
    end.
Proof.
  unfold getitem2, meshgrid. simpl snd. rewrite nth_error_map.
  destruct (nth_error y i) as [yi|]; simpl; [|reflexivity].
  now destruct x.
Qed.

Lemma getitem2_mesh_x (x y : arr1) (j : nat) :
  getitem2 (fst (meshgrid x y)) 0 j
  = match y, nth_error x j with
    | _ :: _, Some xj => Ok xj
    | _, _ => Raise IndexError
    end.
Proof.
  unfold getitem2, meshgrid. simpl fst.
  destruct y as [|y0 y]; simpl; [reflexivity|].
  now destruct (nth_error x j).
Qed.

(** The first use, before the indices of the mesh are looked up. *)
Lemma lazy_mtf_first_use (NP : NumericPrimitives) (CO : Collaborators)
  (self : PSF) :
  _mtf self = None ->
  lazy_mtf self =
    let m := from_psf self in
    let self2 := set_nu_p (radial_frequencies (Otf.x m) (Otf.y m))
                          (set_mtf m self) in
    match (a <~ getitem2 (snd (meshgrid (Otf.x m) (Otf.y m))) 1 0 ;;
           b <~ getitem2 (snd (meshgrid (Otf.x m) (Otf.y m))) 0 0 ;;
           c <~ getitem2 (fst (meshgrid (Otf.x m) (Otf.y m))) 0 1 ;;
           d <~ getitem2 (fst (meshgrid (Otf.x m) (Otf.y m))) 0 0 ;;
           Ok (a - b, c - d)) with
    | Ok (dnx, dny) => (Ok tt, set_dn dnx dny self2)
    | Raise e => (Raise e, self2)
    end.
Proof.
  intros Hm. unfold lazy_mtf. rewrite Hm.
  rewrite <- mesh_radial_frequencies.
  now destruct (meshgrid (Otf.x (from_psf self)) (Otf.y (from_psf self))).
Qed.

(** A mesh with fewer than two samples along an axis stops the build at the
    spacings. *)
Lemma lazy_mtf_small_mesh (NP : NumericPrimitives) (CO : Collaborators)
  (self : PSF) :
  _mtf self = None ->
  (length (Otf.x (from_psf self)) < 2)%nat
  \/ (length (Otf.y (from_psf self)) < 2)%nat ->
  exists self1,
    lazy_mtf self = (Raise IndexError, self1)
    /\ _mtf self1 = Some (from_psf self)
    /\ _dnx self1 = _dnx self /\ _dny self1 = _dny self
    /\ _ee self1 = _ee self.
Proof.
  intros Hm Hsmall. rewrite (lazy_mtf_first_use NP CO self Hm).
  cbv zeta. rewrite !getitem2_mesh_y, !getitem2_mesh_x.
  destruct (Otf.x (from_psf self)) as [|x0 [|x1 xs]];
    destruct (Otf.y (from_psf self)) as [|y0 [|y1 ys]];
    simpl in Hsmall; try lia; simpl; eexists;
    (split; [reflexivity|]); now repeat split.
Qed.

(** X1.  On first use the MTF fields are built exactly when the MTF has at
    least two samples along x and along y: then [_nu_p] holds the radial
    frequencies of the mesh, [_dnx] the step [y[1] - y[0]] and [_dny] the
    step [x[1] - x[0]], and the memo is untouched.  With fewer samples the
    build raises IndexError after [_mtf] has been assigned, and leaves the
    two spacings as they were. *)
Theorem lazy_mtf_needs_two_samples :
  forall (NP : NumericPrimitives) (CO : Collaborators) (self : PSF),
  _mtf self = None ->
  let m := from_psf self in
  ((2 <= length (Otf.x m))%nat /\ (2 <= length (Otf.y m))%nat ->
   exists self1,
     lazy_mtf self = (Ok tt, self1)
     /\ built self1 m (radial_frequencies (Otf.x m) (Otf.y m))
          (nth 1 (Otf.y m) 0 - nth 0 (Otf.y m) 0)
          (nth 1 (Otf.x m) 0 - nth 0 (Otf.x m) 0)
     /\ _ee self1 = _ee self)
  /\ ((length (Otf.x m) < 2)%nat \/ (length (Otf.y m) < 2)%nat ->
      exists self1,
        lazy_mtf self = (Raise IndexError, self1)
        /\ _mtf self1 = Some m
        /\ _dnx self1 = _dnx self /\ _dny self1 = _dny self
        /\ _ee self1 = _ee self).
Proof.
  intros NP CO self Hm m. split.
  - intros [Hx Hy].
    rewrite (lazy_mtf_first_use NP CO self Hm). cbv zeta. fold m.
    rewrite !getitem2_mesh_y, !getitem2_mesh_x.
    destruct (Otf.x m) as [|x0 [|x1 xs]]; simpl in Hx; try lia.
    destruct (Otf.y m) as [|y0 [|y1 ys]]; simpl in Hy; try lia.
    simpl. eexists. split; [reflexivity|]. now repeat split.
  - exact (lazy_mtf_small_mesh NP CO self Hm).
Qed.

Lemma lazy_mtf_needs_two_samples_witness :
  _mtf Fixture.psf0 = None
  /\ (2 <= length (Otf.x Fixture.mtf22))%nat
  /\ (2 <= length (Otf.y Fixture.mtf22))%nat
  /\ exists self1,
       @lazy_mtf Fixture.np Fixture.co Fixture.psf0 = (Ok tt, self1)
       /\ _ee self1 = [].
Proof.
  split; [reflexivity|]. split; [apply le_n|]. split; [apply le_n|].
  destruct (proj1 (lazy_mtf_needs_two_samples Fixture.np Fixture.co
                     Fixture.psf0 eq_refl) (conj (le_n 2) (le_n 2)))
    as (s1 & H & _ & He).
  exists s1. split; [exact H | exact He].
Defined.

(** X2.  A new instance whose MTF has fewer than two samples along an
    axis fails on its first call with IndexError, for a scalar and for an
    iterable alike, and stays unusable: the MTF is then present, the
    spacings are not, and every later request for a radius raises TypeError
    while the memo stays empty. *)
Theorem encircled_energy_after_failed_build :
  forall (NP : NumericPrimitives) (CO : Collaborators) (x y : arr1)
         (data : arr2) (radius : radius_arg) (r : Qc),
  let self := __init__ x y data in
  (length (Otf.x (from_psf self)) < 2)%nat
  \/ (length (Otf.y (from_psf self)) < 2)%nat ->
  exists s1,
    encircled_energy radius self = (Raise IndexError, s1)
    /\ _ee s1 = []
    /\ encircled_energy (Scalar r) s1
       = (Raise (TypeError "unsupported operand type(s): 'NoneType'"), s1)
    /\ encircled_energy (Iterable [r]) s1
       = (Raise (TypeError "unsupported operand type(s): 'NoneType'"), s1).
Proof.
  intros NP CO x y data radius r self Hsmall.
  destruct (lazy_mtf_small_mesh NP CO self eq_refl Hsmall)
    as (s1 & Hrun & Hm & Hdx & Hdy & Hee).
  exists s1.
  assert (Hlazy1 : lazy_mtf s1 = (Ok tt, s1)).
  { unfold lazy_mtf. now rewrite Hm. }
  assert (Hentry : ee_entry r s1
            = (Raise (TypeError "unsupported operand type(s): 'NoneType'"), s1)).
  { unfold ee_entry, dict_mem. rewrite Hee. simpl. rewrite Hm, Hdx. simpl.
    now destruct (_nu_p s1). }
  split; [|split; [exact Hee|split]].
  - unfold encircled_energy, bind. now rewrite Hrun.
  - unfold encircled_energy, bind. now rewrite Hlazy1, Hentry.
  - unfold encircled_energy, bind. rewrite Hlazy1. simpl. unfold bind.
    now rewrite Hentry.
Qed.

Lemma encircled_energy_after_failed_build_witness :
  (length (Otf.x Fixture2.mtf21) < 2)%nat
  /\ exists s1,
       @encircled_energy Fixture.np Fixture2.co_small (Scalar 1) Fixture.psf0
       = (Raise IndexError, s1)
       /\ @encircled_energy Fixture.np Fixture2.co_small (Scalar 1) s1
          = (Raise (TypeError "unsupported operand type(s): 'NoneType'"), s1).
Proof.
  split; [apply le_n|].
  destruct (encircled_energy_after_failed_build Fixture.np Fixture2.co_small
              [0; 1] [0; 1] [[1; 0]; [0; 0]] (Scalar 1) 1
              (or_introl (le_n 2)))
    as (s1 & H & _ & H1 & _).
  exists s1. split; [exact H | exact H1].
Defined.

(** *** The invariant of the memo *)

Lemma ee_entry_keeps_invariant (NP : NumericPrimitives) (CO : Collaborators)
  (self : PSF) (r : Qc) :
  psf_inv self ->
  psf_inv (snd (ee_entry r self))
  /\ exists added, _ee (snd (ee_entry r self)) = _ee self ++ added.
Proof.
  intros Hinv.
  destruct (_mtf self) as [m|] eqn:Hm; destruct (_nu_p self) as [nu|] eqn:Hnu;
    destruct (_dnx self) as [dx|] eqn:Hdx;
    destruct (_dny self) as [dy|] eqn:Hdy;
    try (destruct (ee_entry_spec self r m nu dx dy Hinv
                     (conj Hm (conj Hnu (conj Hdx Hdy))))
           as (s' & added & Hrun & Hinv' & _ & Hee & _);
         rewrite Hrun; simpl; split; [exact Hinv' | now exists added]);
    unfold ee_entry, ee_getitem; rewrite ?Hm, ?Hnu, ?Hdx, ?Hdy;
    destruct (negb (dict_mem r (_ee self)));
    try destruct (dict_get r (_ee self)); simpl;
    (split; [exact Hinv | exists []; now rewrite app_nil_r]).
Qed.

Lemma ee_loop_keeps_invariant (NP : NumericPrimitives) (CO : Collaborators)
  (rs : list Qc) :
  forall (self : PSF) (out : list Qc),
  psf_inv self ->
  psf_inv (snd (ee_loop rs out self))
  /\ exists added, _ee (snd (ee_loop rs out self)) = _ee self ++ added.
Proof.
  induction rs as [|r rs IH]; intros self out Hinv; simpl.
  - split; [exact Hinv | exists []; now rewrite app_nil_r].
  - unfold bind.
    destruct (ee_entry_keeps_invariant NP CO self r Hinv) as [Hinv1 [add1 Hee1]].
    destruct (ee_entry r self) as [[v|e] s1]; simpl in *.
    + destruct (IH s1 (out ++ [v]) Hinv1) as [Hinv2 [add2 Hee2]].
      split; [exact Hinv2|]. exists (add1 ++ add2).
      now rewrite Hee2, Hee1, app_assoc.
    + split; [exact Hinv1 | now exists add1].
Qed.

(** X3.  [encircled_energy] keeps the invariant of an instance, whether it
    returns or raises: every memoised energy is the core's value at its
    radius, the keys are distinct and the radial frequencies have no zero;
    and the memo it leaves is the memo it found followed by new entries. *)
Theorem encircled_energy_keeps_invariant :
  forall (NP : NumericPrimitives) (CO : Collaborators) (self : PSF)
         (radius : radius_arg),
  psf_inv self ->
  psf_inv (snd (encircled_energy radius self))
  /\ exists added,
       _ee (snd (encircled_energy radius self)) = _ee self ++ added.
Proof.
  intros NP CO self radius Hinv.
  pose proof (lazy_mtf_inv self Hinv) as Hinv1.
  pose proof (lazy_mtf_ee self) as Hee1.
  unfold encircled_energy, bind.
  destruct (lazy_mtf self) as [[[]|e] s1]; simpl in *.
  - destruct radius as [r|rs].
    + destruct (ee_entry_keeps_invariant NP CO s1 r Hinv1) as [Hinv2 [add Hee2]].
      destruct (ee_entry r s1) as [[v|e] s2]; simpl in *;
        (split; [exact Hinv2 | exists add; now rewrite Hee2, Hee1]).
    + destruct (ee_loop_keeps_invariant NP CO rs s1 [] Hinv1) as [Hinv2 [add Hee2]].
      destruct (ee_loop rs [] s1) as [[v|e] s2]; simpl in *;
        (split; [exact Hinv2 | exists add; now rewrite Hee2, Hee1]).
  - split; [exact Hinv1 | exists []; now rewrite app_nil_r].
Qed.

Lemma encircled_energy_keeps_invariant_witness :
  @psf_inv Fixture.np Fixture.psf0
  /\ @psf_inv Fixture.np
       (snd (@encircled_energy Fixture.np Fixture.co (Scalar 1) Fixture.psf0)).
Proof.
  assert (H0 : @psf_inv Fixture.np Fixture.psf0) by apply init_inv.
  split; [exact H0|].
  exact (proj1 (encircled_energy_keeps_invariant Fixture.np Fixture.co
                  Fixture.psf0 (Scalar 1) H0)).
Defined.

(** *** [ee_radius] on an energy that is not memoised *)

(** X4.  For an energy that is not memoised, [ee_radius] is the minimiser
    run on the objective [(encircled_energy(x) - energy)^2]; each evaluation
    of the objective, at any point [x], memoises the energy of [x] and
    leaves an instance on which the next evaluation behaves the same. *)
Theorem ee_radius_minimises :
  forall (NP : NumericPrimitives) (CO : Collaborators) (self self1 : PSF)
         (m : Otf.MTF) (nu : arr2) (dx dy energy : Qc),
  psf_inv self -> lazy_mtf self = (Ok tt, self1) -> built self1 m nu dx dy ->
  list_contains energy (values (_ee self)) = false ->
  let E := fun x =>
    _encircled_energy_core (Otf.data m) (x / of_int 1000) nu dx dy in
  ee_radius energy self = golden (optfcn energy) self
  /\ forall x, exists s',
       optfcn energy x self = (Ok ((E x - energy) * (E x - energy)), s')
       /\ dict_get x (_ee s') = Some (E x)
       /\ psf_inv s' /\ lazy_mtf s' = (Ok tt, s') /\ built s' m nu dx dy.
Proof.
  intros NP CO self self1 m nu dx dy energy Hinv Hlazy Hb Hnot E.
  split.
  - unfold ee_radius. now rewrite Hnot.
  - intros x.
    destruct (encircled_energy_scalar self self1 x m nu dx dy Hinv Hlazy Hb)
      as (s' & Hrun & Hinv' & Hb' & Hget).
    exists s'. unfold optfcn, bind. rewrite Hrun.
    split; [reflexivity|]. split; [exact Hget|]. split; [exact Hinv'|].
    split; [now apply (lazy_mtf_built s' m nu dx dy) | exact Hb'].
Qed.

Lemma ee_radius_minimises_witness :
  @psf_inv Fixture.np Fixture.psf0
  /\ @lazy_mtf Fixture.np Fixture.co Fixture.psf0 = (Ok tt, Fixture.psf1)
  /\ built Fixture.psf1 Fixture.mtf22 Fixture.nu1 Fixture.dx1 Fixture.dy1
  /\ list_contains (Fixture.q 1 2) (values (_ee Fixture.psf0)) = false
  /\ @ee_radius Fixture.np Fixture.co (Fixture.q 1 2) Fixture.psf0
     = @golden Fixture.np PSF
         (@optfcn Fixture.np Fixture.co (Fixture.q 1 2)) Fixture.psf0.
Proof.
  assert (H0 : @psf_inv Fixture.np Fixture.psf0) by apply init_inv.
  assert (H1 : @lazy_mtf Fixture.np Fixture.co Fixture.psf0
               = (Ok tt, Fixture.psf1)) by (vm_compute; reflexivity).
  assert (H2 : built Fixture.psf1 Fixture.mtf22 Fixture.nu1 Fixture.dx1
                 Fixture.dy1) by (repeat split; vm_compute; reflexivity).
  split; [exact H0|]. split; [exact H1|]. split; [exact H2|].
  split; [reflexivity|].
  exact (proj1 (ee_radius_minimises Fixture.np Fixture.co Fixture.psf0
                  Fixture.psf1 Fixture.mtf22 Fixture.nu1 Fixture.dx1
                  Fixture.dy1 (Fixture.q 1 2) H0 H1 H2 eq_refl)).
Defined.

(** *** The curve of [plot_encircled_energy] *)

Lemma length_linspace (start stop : Qc) (num : nat) :
  length (linspace start stop num) = num.
Proof.
  destruct num as [|[|n]]; try reflexivity.
  unfold linspace. now rewrite length_map, length_seq.
Qed.

Lemma of_int_nonzero (z : Z) : z <> 0%Z -> of_int z <> 0.
Proof.
  intros Hz H. unfold of_int in H.
  change 0 with (Q2Qc (inject_Z 0)) in H. apply Q2Qc_eq_iff in H.
  apply Hz. unfold Qeq in H. simpl in H. lia.
Qed.

Lemma linspace_ends (start stop : Qc) (num : nat) :
  (2 <= num)%nat ->
  nth 0 (linspace start stop num) 0 = start
  /\ nth (num - 1) (linspace start stop num) 0 = stop.
Proof.
  intros Hn. destruct num as [|[|n]]; try lia.
  unfold linspace.
  set (step := (stop - start) / of_int (Z.of_nat (S n))).
  split.
  - change (nth 0 (map _ (seq 0 (S (S n)))) 0)
      with (start + of_int (Z.of_nat 0) * step).
    replace (of_int (Z.of_nat 0)) with 0 by (apply Qc_is_canon; reflexivity).
    ring.
  - set (f := fun i : nat => start + of_int (Z.of_nat i) * step).
    replace (S (S n) - 1)%nat with (S n) by lia.
    rewrite (nth_indep _ 0 (f 0%nat))
      by (rewrite length_map, length_seq; lia).
    rewrite (map_nth f), seq_nth by lia. unfold f, step. simpl Nat.add.
    field. apply of_int_nonzero. lia.
Qed.

(** X5.  With an axis limit other than the int 0,
    [plot_encircled_energy] plots [npts] abscissae, running from [1e-5] to
    the limit when there are at least two, against their encircled energies
    in the same order, and every abscissa is memoised. *)
Theorem plot_encircled_energy_curve :
  forall (NP : NumericPrimitives) (CO : Collaborators) (self self1 : PSF)
         (m : Otf.MTF) (nu : arr2) (dx dy : Qc) (axlim : pynum) (npts : nat),
  psf_inv self -> lazy_mtf self = (Ok tt, self1) -> built self1 m nu dx dy ->
  is_int_zero axlim = false ->
  let E := fun x =>
    _encircled_energy_core (Otf.data m) (x / of_int 1000) nu dx dy in
  let xs := linspace plot_start (to_num axlim) npts in
  exists self',
    plot_encircled_energy (Some axlim) npts self
    = (Ok (mkPlot xs (Array (map E xs)) (Some axlim)), self')
    /\ length xs = npts
    /\ ((2 <= npts)%nat ->
        nth 0 xs 0 = plot_start /\ nth (npts - 1) xs 0 = to_num axlim)
    /\ (forall x, In x xs -> dict_get x (_ee self') = Some (E x)).
Proof.
  intros NP CO self self1 m nu dx dy axlim npts Hinv Hlazy Hb Hz E xs.
  destruct (encircled_energy_iterable self self1 xs m nu dx dy Hinv Hlazy Hb)
    as (s' & added & Hrun & _ & _ & _ & Hget & _).
  exists s'. split.
  { unfold plot_encircled_energy. rewrite Hz. unfold bind. fold xs.
    now rewrite Hrun. }
  split; [apply length_linspace|].
  split; [apply linspace_ends | exact Hget].
Qed.

Lemma plot_encircled_energy_curve_witness :
  @psf_inv Fixture.np Fixture.psf0
  /\ @lazy_mtf Fixture.np Fixture.co Fixture.psf0 = (Ok tt, Fixture.psf1)
  /\ built Fixture.psf1 Fixture.mtf22 Fixture.nu1 Fixture.dx1 Fixture.dy1
  /\ is_int_zero (PyFloat 1) = false
  /\ exists self',
       @plot_encircled_energy Fixture.np Fixture.co (Some (PyFloat 1)) 3
         Fixture.psf0
       = (Ok (mkPlot (linspace plot_start 1 3)
                (Array (map (fun x =>
                   @_encircled_energy_core Fixture.np
                     (Otf.data Fixture.mtf22) (x / of_int 1000) Fixture.nu1
                     Fixture.dx1 Fixture.dy1) (linspace plot_start 1 3)))
                (Some (PyFloat 1))), self').
Proof.
  assert (H0 : @psf_inv Fixture.np Fixture.psf0) by apply init_inv.
  assert (H1 : @lazy_mtf Fixture.np Fixture.co Fixture.psf0
               = (Ok tt, Fixture.psf1)) by (vm_compute; reflexivity).
  assert (H2 : built Fixture.psf1 Fixture.mtf22 Fixture.nu1 Fixture.dx1
                 Fixture.dy1) by (repeat split; vm_compute; reflexivity).
  split; [exact H0|]. split; [exact H1|]. split; [exact H2|].
  split; [reflexivity|].
  destruct (plot_encircled_energy_curve Fixture.np Fixture.co Fixture.psf0
              Fixture.psf1 Fixture.mtf22 Fixture.nu1 Fixture.dx1 Fixture.dy1
              (PyFloat 1) 3 H0 H1 H2 eq_refl) as (s' & H & _).
  exists s'. exact H.
Defined.

(** *** Renormalisation *)














(** *** [from_pupil] *)




(** X9.  [from_pupil] with a norm whose lower-case form is neither 'max'
    nor 'radiometric' raises ValueError('unknown norm') and returns no
    PSF. *)
Theorem from_pupil_unknown_norm :
  forall (W : Type) (PR : Propagation W) (pupil : Pupil W) (efl Q : Qc)
         (norm : string) (radpower : Qc) (incoherent : bool),
  lower norm <> "max"%string -> lower norm <> "radiometric"%string ->
  from_pupil pupil efl Q norm radpower incoherent
  = Raise (ValueError "unknown norm").
Proof.
  intros W PR pupil efl Q norm radpower incoherent Hmax Hrad.
  unfold from_pupil. apply String.eqb_neq in Hmax, Hrad.
  now rewrite Hmax, Hrad.
Qed.

Lemma from_pupil_unknown_norm_witness :
  (lower "peak" = "max"%string -> False)
  /\ (lower "peak" = "radiometric"%string -> False)
  /\ @from_pupil _ Fixture2.propagation Fixture2.pupil0 (of_int 10)
       (of_int 2) "peak" 1 true = Raise (ValueError "unknown norm").
Proof.
  assert (H1 : lower "peak" <> "max"%string) by (vm_compute; discriminate).
  assert (H2 : lower "peak" <> "radiometric"%string)
    by (vm_compute; discriminate).
  split; [exact H1|]. split; [exact H2|].
  exact (from_pupil_unknown_norm _ Fixture2.propagation Fixture2.pupil0
           (of_int 10) (of_int 2) "peak" 1 true H1 H2).
Defined.

End PsfExtra.

(* ------------------------------------------------------------------------- *)
(** ** mtf_utils.py: further properties *)
(* ------------------------------------------------------------------------- *)

Module MtfExtra.

Import MtfUtils MtfMore Spec PyFacts MtfFacts.
Local Open Scope Qc_scope.
Local Open Scope py_scope.

(** *** The table of tangential and sagittal values *)

(** X10.  [mtf_ts_to_dataframe] yields two rows per frequency, as many
    frequencies as the shortest of the three inputs has entries, each row
    with the given field and focus.  The rows labelled 'Tan' carry, in
    order, the entries of [sag], and the rows labelled 'Sag' the entries of
    [tan]: the loop binds the two names the other way round. *)
Theorem mtf_ts_to_dataframe_rows :
  forall (tan sag freqs : arr1) (field focus : Qc),
  let rows := mtf_ts_to_dataframe tan sag freqs field focus in
  let n := Nat.min (length freqs) (Nat.min (length tan) (length sag)) in
  length rows = (2 * n)%nat
  /\ map MTF (filter (fun r => String.eqb (Azimuth r) "Tan") rows)
     = firstn n sag
  /\ map MTF (filter (fun r => String.eqb (Azimuth r) "Sag") rows)
     = firstn n tan
  /\ map Freq (filter (fun r => String.eqb (Azimuth r) "Tan") rows)
     = firstn n freqs
  /\ map Freq (filter (fun r => String.eqb (Azimuth r) "Sag") rows)
     = firstn n freqs
  /\ Forall (fun r => Field r = field /\ Focus r = focus) rows.
Proof.
  intros tan sag freqs field focus. unfold mtf_ts_to_dataframe.
  revert tan sag. induction freqs as [|f freqs IH]; intros tan sag.
  - simpl. repeat split; constructor.
  - destruct tan as [|s tan]; [simpl; repeat split; constructor|].
    destruct sag as [|t sag]; [simpl; repeat split; constructor|].
    destruct (IH tan sag) as (H1 & H2 & H3 & H4 & H5 & H6).
    cbn [zip3 flat_map length Nat.min firstn app filter map String.eqb
         Azimuth MTF Freq Ascii.eqb Bool.eqb].
    cbn in H1, H2, H3, H4, H5 |- *.
    split; [lia|]. split; [now f_equal|]. split; [now f_equal|].
    split; [now f_equal|]. split; [now f_equal|].
    repeat constructor; assumption.
Qed.

(** *** Frequency labels *)

Lemma of_int_floor_ceiling (z : Z) :
  Qfloor (of_int z) = z /\ Qceiling (of_int z) = z.
Proof.
  split.
  - now rewrite (Qfloor_comp _ _ (this_of_int z)), Qfloor_Z.
  - now rewrite (Qceiling_comp _ _ (this_of_int z)), Qceiling_Z.
Qed.

Lemma int_of_int (z : Z) : int (of_int z) = z.
Proof.
  unfold int. destruct (of_int_floor_ceiling z) as [Hf Hc].
  destruct (Qcltb (of_int z) 0); assumption.
Qed.

Lemma mod1_whole (f : Qc) : mod1 f = 0 <-> exists z, f = of_int z.
Proof.
  unfold mod1. split.
  - intros H. exists (Qfloor f).
    transitivity (f - of_int (Qfloor f) + of_int (Qfloor f)); [ring|].
    rewrite H. ring.
  - intros [z ->]. destruct (of_int_floor_ceiling z) as [-> _]. ring.
Qed.

(** X11.  [_int_check_frequencies] keeps the frequencies in number and
    order: read back as numbers the labels are the frequencies.  A label is
    an int exactly for a whole frequency, and a float exactly for one that
    is not whole. *)
Theorem int_check_frequencies_labels :
  forall (frequencies : list Qc),
  map to_num (_int_check_frequencies frequencies) = frequencies
  /\ (forall z, In (PyInt z) (_int_check_frequencies frequencies)
                <-> In (of_int z) frequencies)
  /\ (forall f, In (PyFloat f) (_int_check_frequencies frequencies)
                <-> In f frequencies /\ forall z, f <> of_int z).
Proof.
  intros frequencies. unfold _int_check_frequencies.
  split; [|split].
  - rewrite map_map. rewrite <- (map_id frequencies) at 2.
    apply map_ext. intros f.
    destruct (Qc_eq_dec (mod1 f) 0) as [H|H]; [|reflexivity].
    apply mod1_whole in H. destruct H as [z ->]. simpl.
    now rewrite int_of_int.
  - intros z. rewrite in_map_iff. split.
    + intros [f [Hf Hin]].
      destruct (Qc_eq_dec (mod1 f) 0) as [H|H]; [|discriminate].
      apply mod1_whole in H. destruct H as [z' ->].
      rewrite int_of_int in Hf. injection Hf as ->. exact Hin.
    + intros Hin. exists (of_int z). split; [|exact Hin].
      destruct (Qc_eq_dec (mod1 (of_int z)) 0) as [H|H].
      * now rewrite int_of_int.
      * exfalso. apply H. apply mod1_whole. now exists z.
  - intros f. rewrite in_map_iff. split.
    + intros [f' [Hf Hin]].
      destruct (Qc_eq_dec (mod1 f') 0) as [H|H]; [discriminate|].
      injection Hf as ->. split; [exact Hin|].
      intros z Hz. apply H. apply mod1_whole. now exists z.
    + intros [Hin Hz]. exists f. split; [|exact Hin].
      destruct (Qc_eq_dec (mod1 f) 0) as [H|H]; [|reflexivity].
      apply mod1_whole in H. destruct H as [z Hfz]. now elim (Hz z).
Qed.

(** *** Positions in ascending axes *)

Lemma searchsorted_cons (h : Qc) (t : arr1) (v : Qc) :
  searchsorted (h :: t) v
  = if Qcltb h v then S (searchsorted t v) else searchsorted t v.
Proof. unfold searchsorted. simpl. now destruct (Qcltb h v). Qed.

Lemma searchsorted_above (t : arr1) (v : Qc) :
  Forall (fun w => v <= w) t -> searchsorted t v = 0%nat.
Proof.
  induction 1 as [|w t Hw _ IH]; [reflexivity|].
  rewrite searchsorted_cons, IH.
  now rewrite (proj2 (Qcltb_false w v) Hw).
Qed.

Lemma sorted_tail_above (h : Qc) (t : arr1) (v : Qc) :
  StronglySorted Qcle (h :: t) -> v <= h -> Forall (fun w => v <= w) t.
Proof.
  intros Hs Hv. inversion Hs as [|? ? _ Hall]; subst.
  revert Hall. apply Forall_impl. intros w Hw.
  now apply Qcle_trans with h.
Qed.

(** In an ascending axis [searchsorted] is the position of the first entry
    not below the value: everything before it is below, everything from it
    on is not. *)
Lemma searchsorted_sorted (l : arr1) (v : Qc) :
  StronglySorted Qcle l ->
  (searchsorted l v <= length l)%nat
  /\ (forall i, (i < searchsorted l v)%nat -> nth i l 0 < v)
  /\ (forall i, (searchsorted l v <= i < length l)%nat -> v <= nth i l 0).
Proof.
  induction l as [|h t IH]; intros Hs.
  - unfold searchsorted. simpl. split; [lia|]. split; intros i Hi; lia.
  - rewrite searchsorted_cons. destruct (Qcltb h v) eqn:Hhv.
    + apply Qcltb_true in Hhv.
      inversion Hs as [|? ? Hs' _]; subst.
      destruct (IH Hs') as (H1 & H2 & H3).
      split; [simpl; lia|]. split.
      * intros [|i] Hi; simpl; [exact Hhv | apply H2; lia].
      * intros [|i] Hi; simpl in *; [lia | apply H3; lia].
    + apply Qcltb_false in Hhv.
      pose proof (sorted_tail_above h t v Hs Hhv) as Hall.
      rewrite (searchsorted_above t v Hall).
      split; [simpl; lia|]. split; [intros i Hi; lia|].
      intros [|i] Hi; simpl in *; [exact Hhv|].
      rewrite Forall_forall in Hall. apply Hall, nth_In. lia.
Qed.

Lemma getitem_first {A : Type} (a : A) (l : list A) :
  getitem (a :: l) 0 = Ok a.
Proof. reflexivity. Qed.

Lemma getitem_last {A : Type} (l : list A) (d : A) :
  l <> [] -> getitem l (-1) = Ok (last l d).
Proof.
  intros Hne. destruct (exists_last Hne) as (l' & a' & ->).
  rewrite last_last. unfold getitem. rewrite length_app. simpl length.
  change (-1 <? 0)%Z with true. cbv iota.
  destruct (Z.ltb_spec (Z.of_nat (length l' + 1) + -1) 0); [lia|].
  replace (Z.to_nat (Z.of_nat (length l' + 1) + -1)) with (length l') by lia.
  rewrite nth_error_app2 by lia. now rewrite Nat.sub_diag.
Qed.

(** *** The image of [plot2d] *)

Lemma mapM_ok {A B : Type} (f : A -> result B) (g : A -> B) (l : list A) :
  (forall a, In a l -> f a = Ok (g a)) -> mapM f l = Ok (map g l).
Proof.
  intros H. rewrite <- (map_id l) at 1. now apply mapM_map.
Qed.

Lemma take_channel_ok {A : Type} (c : list (list (list A))) (k : nat) (d : A) :
  Forall (Forall (fun row => (k < length row)%nat)) c ->
  take_channel c k = Ok (map (map (fun row => nth k row d)) c).
Proof.
  intros Hc. unfold take_channel. apply mapM_ok. intros plane Hp.
  apply mapM_ok. intros row Hr.
  rewrite Forall_forall in Hc. specialize (Hc plane Hp).
  rewrite Forall_forall in Hc. specialize (Hc row Hr).
  destruct (nth_error row k) as [v|] eqn:Hv.
  - now rewrite (nth_error_nth _ _ d Hv).
  - apply nth_error_None in Hv. lia.
Qed.

Lemma take_channel_beyond {A : Type} (row : list A) (plane : list (list A))
  (c : list (list (list A))) (k : nat) :
  (length row <= k)%nat ->
  take_channel ((row :: plane) :: c) k = Raise IndexError.
Proof.
  intros Hk. unfold take_channel. simpl.
  now rewrite (proj2 (nth_error_None row k) Hk).
Qed.

Lemma map2_map_same {A B C D : Type} (f : B -> C -> D) (g : A -> B)
  (h : A -> C) (l : list A) :
  map2 f (map g l) (map h l) = map (fun a => f (g a) (h a)) l.
Proof. induction l as [|a l IH]; simpl; [reflexivity | now rewrite IH]. Qed.

Lemma cube_rows_long (c : MTFvFvF) (k : nat) :
  cube_shape c -> (k < length (MtfUtils.freq c))%nat ->
  Forall (Forall (fun row => (k < length row)%nat)) (data c).
Proof.
  intros [_ Hshape] Hk. revert Hshape. apply Forall_impl.
  intros plane [_ Hrows]. revert Hrows. apply Forall_impl.
  intros row ->. exact Hk.
Qed.

Lemma cube_first_row (c : MTFvFvF) :
  cube_shape c -> focus c <> [] -> field c <> [] ->
  exists row plane planes,
    data c = (row :: plane) :: planes
    /\ length row = length (MtfUtils.freq c).
Proof.
  intros [Hlen Hshape] Hfocus Hfield.
  destruct (data c) as [|p planes] eqn:Hdata.
  { destruct (focus c); [congruence | discriminate]. }
  inversion Hshape as [|? ? [Hp Hrows] _]; subst.
  destruct p as [|row plane].
  { destruct (field c); [congruence | discriminate]. }
  inversion Hrows; subst. now exists row, plane, planes.
Qed.

Section Plots.

Context {UT : Util}.

(** X12.  On a cube with the shape of its axes, non-empty focus and field
    axes and ascending frequencies, [plot2d] shows the channel of the first
    frequency that is not below the requested one (not the closest one), and
    raises IndexError when the request exceeds every frequency.  The image
    is the gamma-corrected channel with the extent of the field and focus
    axes; the symmetric image puts each row, reversed, before itself, and
    runs from minus the last field to the last field. *)
Theorem plot2d_channel :
  forall (c : MTFvFvF) (freq : Qc) (symmetric : bool),
  cube_shape c -> focus c <> [] -> field c <> [] ->
  StronglySorted Qcle (MtfUtils.freq c) ->
  let k := searchsorted (MtfUtils.freq c) freq in
  let chan := fun plane : list (list Qc) =>
                map (fun row => nth k row 0) plane in
  (forall i, (i < k)%nat -> nth i (MtfUtils.freq c) 0 < freq)
  /\ (forall i, (k <= i < length (MtfUtils.freq c))%nat ->
        freq <= nth i (MtfUtils.freq c) 0)
  /\ ((k < length (MtfUtils.freq c))%nat ->
      plot2d c freq symmetric
      = Ok (if symmetric then
              mkImage
                (correct_gamma
                   (map (fun plane => rev (chan plane) ++ chan plane)
                        (data c)))
                (- last (field c) 0, last (field c) 0,
                 hd 0 (focus c), last (focus c) 0)
            else
              mkImage (correct_gamma (map chan (data c)))
                (hd 0 (field c), last (field c) 0,
                 hd 0 (focus c), last (focus c) 0)))
  /\ ((length (MtfUtils.freq c) <= k)%nat ->
      plot2d c freq symmetric = Raise IndexError).
Proof.
  intros c freq symmetric Hshape Hfocus Hfield Hsorted k chan.
  destruct (searchsorted_sorted (MtfUtils.freq c) freq Hsorted)
    as (_ & Hbelow & Habove).
  split; [exact Hbelow|]. split; [exact Habove|].
  assert (Hext : forall (B : Type) (body : Qc -> Qc -> Qc -> Qc -> result B),
            (x0 <~ getitem (field c) 0 ;;
             x1 <~ getitem (field c) (-1) ;;
             y0 <~ getitem (focus c) 0 ;;
             y1 <~ getitem (focus c) (-1) ;;
             body x0 x1 y0 y1)
            = body (hd 0 (field c)) (last (field c) 0)
                   (hd 0 (focus c)) (last (focus c) 0)).
  { intros B body.
    rewrite (getitem_last (field c) 0 Hfield).
    rewrite (getitem_last (focus c) 0 Hfocus).
    destruct (field c) as [|x0 xs]; [congruence|].
    destruct (focus c) as [|y0 ys]; [congruence|].
    reflexivity. }
  unfold plot2d. rewrite Hext. fold k. split.
  - intros Hk.
    rewrite (take_channel_ok (data c) k 0 (cube_rows_long c k Hshape Hk)).
    destruct symmetric; cbn [rmap rbind].
    + do 2 f_equal.
      * f_equal. rewrite map_map.
        exact (map2_map_same (@app Qc) _ _ (data c)).
      * do 3 f_equal. ring.
    + reflexivity.
  - intros Hk.
    destruct (cube_first_row c Hshape Hfocus Hfield)
      as (row & plane & planes & Hdata & Hrow).
    rewrite Hdata, take_channel_beyond by lia.
    now destruct symmetric.
Qed.

End Plots.

Lemma plot2d_channel_witness :
  cube_shape Fixture.cube_flat
  /\ focus Fixture.cube_flat <> []
  /\ field Fixture.cube_flat <> []
  /\ StronglySorted Qcle (freq Fixture.cube_flat)
  /\ searchsorted (freq Fixture.cube_flat) (of_int 15) = 1%nat
  /\ @plot2d Fixture2.util Fixture.cube_flat (of_int 15) false
     = Ok (mkImage
             (map (fun plane => map (fun row => nth 1 row 0) plane)
                  (data Fixture.cube_flat))
             (0, 1, of_int (-10), of_int 10)).
Proof.
  assert (H2 : cube_shape Fixture.cube_flat)
    by (split; [reflexivity | repeat constructor]).
  assert (H3 : focus Fixture.cube_flat <> []) by discriminate.
  assert (H4 : field Fixture.cube_flat <> []) by discriminate.
  assert (H5 : StronglySorted Qcle (freq Fixture.cube_flat))
    by (repeat constructor; vm_compute; discriminate).
  split; [exact H2|]. split; [exact H3|]. split; [exact H4|].
  split; [exact H5|]. split; [vm_compute; reflexivity|].
  exact (proj1 (proj2 (proj2 (@plot2d_channel Fixture2.util Fixture.cube_flat
           (of_int 15) false H2 H3 H4 H5))) (le_n 2)).
Defined.

(** *** The window of [plot_thrufocus_singlefield] *)

Lemma filter_none {A : Type} (p : A -> bool) (l : list A) :
  Forall (fun a => p a = false) l -> filter p l = [].
Proof.
  induction 1 as [|a l Ha _ IH]; simpl; [reflexivity|]. now rewrite Ha.
Qed.

Lemma slice_nil {A : Type} (l : list A) (a : nat) : slice l a 0 = [].
Proof. reflexivity. Qed.

Lemma slice_S_S {A : Type} (h : A) (t : list A) (a b : nat) :
  slice (h :: t) (S a) (S b) = slice t a b.
Proof. reflexivity. Qed.

Lemma slice_0 {A : Type} (l : list A) (b : nat) : slice l 0 b = firstn b l.
Proof. unfold slice. now rewrite Nat.sub_0_r. Qed.

Lemma firstn_searchsorted (l : arr1) (v : Qc) :
  StronglySorted Qcle l ->
  firstn (searchsorted l v) l = filter (fun w => Qcltb w v) l.
Proof.
  induction l as [|h t IH]; intros Hs; [reflexivity|].
  rewrite searchsorted_cons. simpl filter.
  destruct (Qcltb h v) eqn:Hhv.
  - inversion Hs; subst. simpl. now rewrite IH.
  - apply Qcltb_false in Hhv.
    pose proof (sorted_tail_above h t v Hs Hhv) as Hall.
    rewrite (searchsorted_above t v Hall). simpl. symmetry.
    apply filter_none. revert Hall. apply Forall_impl.
    intros w Hw. now apply Qcltb_false.
Qed.

(** In an ascending axis the slice between the positions of two values holds
    the entries from the first value up to, but without, the second. *)
Lemma slice_window (l : arr1) (a b : Qc) :
  StronglySorted Qcle l ->
  slice l (searchsorted l a) (searchsorted l b)
  = filter (fun f => negb (Qcltb f a) && Qcltb f b) l.
Proof.
  induction l as [|h t IH]; intros Hs; [reflexivity|].
  assert (Hs' : StronglySorted Qcle t) by (inversion Hs; assumption).
  rewrite !searchsorted_cons. simpl filter.
  destruct (Qcltb h a) eqn:Hha; destruct (Qcltb h b) eqn:Hhb; simpl.
  - rewrite slice_S_S. now apply IH.
  - apply Qcltb_false in Hhb.
    pose proof (sorted_tail_above h t b Hs Hhb) as Hall.
    rewrite (searchsorted_above t b Hall), slice_nil. symmetry.
    apply filter_none. revert Hall. apply Forall_impl. intros w Hw.
    rewrite (proj2 (Qcltb_false w b) Hw). apply andb_false_r.
  - apply Qcltb_false in Hha.
    pose proof (sorted_tail_above h t a Hs Hha) as Hall.
    rewrite (searchsorted_above t a Hall), slice_0. simpl. f_equal.
    rewrite (firstn_searchsorted t b Hs'). apply filter_ext_in.
    intros w Hw. rewrite Forall_forall in Hall.
    now rewrite (proj2 (Qcltb_false w a) (Hall w Hw)).
  - apply Qcltb_false in Hha, Hhb.
    pose proof (sorted_tail_above h t a Hs Hha) as Halla.
    pose proof (sorted_tail_above h t b Hs Hhb) as Hallb.
    rewrite (searchsorted_above t a Halla), (searchsorted_above t b Hallb).
    rewrite slice_nil. symmetry.
    apply filter_none. revert Hallb. apply Forall_impl. intros w Hw.
    rewrite (proj2 (Qcltb_false w b) Hw). apply andb_false_r.
Qed.

Lemma mapM_Forall2 {A B : Type} (f : A -> result B) (l : list A)
  (out : list B) :
  mapM f l = Ok out -> Forall2 (fun a b => f a = Ok b) l out.
Proof.
  revert out. induction l as [|a l IH]; intros out; simpl.
  - intros H. injection H as <-. constructor.
  - destruct (f a) as [b|e] eqn:Hfa; simpl; [|discriminate].
    destruct (mapM f l) as [bs|e]; simpl; [|discriminate].
    intros H. injection H as <-. constructor; [exact Hfa | now apply IH].
Qed.

Lemma length_slice {A : Type} (l l' : list A) (a b : nat) :
  length l = length l' -> length (slice l a b) = length (slice l' a b).
Proof.
  intros H. unfold slice. now rewrite !length_firstn, !length_skipn, H.
Qed.

Lemma getitem_ok_nonempty {A : Type} (l : list A) (i : Z) (a : A) :
  getitem l i = Ok a -> l <> [].
Proof.
  intros H ->. unfold getitem in H. simpl in H.
  destruct (i <? 0)%Z; destruct (_ <? 0)%Z; try discriminate;
    destruct (Z.to_nat _); discriminate.
Qed.

(** X13.  When [plot_thrufocus_singlefield] returns for an ascending focus
    axis, the abscissae are the focus samples [f] with
    [-_range <= f < _range], there is at least one, the x limits are the
    first and the last of them, there is one curve per requested frequency,
    labelled with it, and, for data with one plane per focus sample, every
    curve is as long as the abscissae. *)
Theorem plot_thrufocus_window :
  forall (c : MTFvFvF) (field : Qc) (freqs : list Qc) (_range : Qc)
         (t : thrufocus),
  StronglySorted Qcle (focus c) ->
  plot_thrufocus_singlefield c field freqs _range = Ok t ->
  xaxis_pts t
  = filter (fun f => negb (Qcltb f (- _range)) && Qcltb f _range) (focus c)
  /\ xaxis_pts t <> []
  /\ xlim t = (hd 0 (xaxis_pts t), last (xaxis_pts t) 0)
  /\ map snd (curves t) = freqs
  /\ (length (data c) = length (focus c) ->
      Forall (fun cv => length (fst cv) = length (xaxis_pts t)) (curves t)).
Proof.
  intros c field freqs _range t Hsorted. unfold plot_thrufocus_singlefield.
  set (r0 := searchsorted (focus c) (- _range)).
  set (r1 := searchsorted (focus c) _range).
  set (fi := searchsorted (MtfUtils.field c) field).
  assert (Hidx : map fst (combine (map (searchsorted (freq c)) freqs) freqs)
                 = map (searchsorted (freq c)) freqs).
  { induction freqs as [|f freqs IH]; simpl; [reflexivity | now rewrite IH]. }
  rewrite Hidx. clear Hidx.
  destruct (mapM _ _) as [arrays|e] eqn:Harr; [|discriminate]. cbn [rbind].
  destruct (getitem (slice (focus c) r0 r1) 0) as [first|e] eqn:Hfirst;
    [|discriminate]. cbn [rbind].
  destruct (getitem (slice (focus c) r0 r1) (-1)) as [lst|e] eqn:Hlast;
    [|discriminate]. cbn [rbind].
  intros H. injection H as <-. simpl.
  pose proof (getitem_ok_nonempty _ _ _ Hfirst) as Hne.
  apply mapM_Forall2 in Harr.
  assert (Hlen : length arrays = length freqs).
  { apply Forall2_length in Harr. now rewrite length_map in Harr. }
  split; [apply slice_window; exact Hsorted|]. split; [exact Hne|].
  split.
  { rewrite (getitem_last _ 0 Hne) in Hlast. injection Hlast as <-.
    destruct (slice (focus c) r0 r1); [congruence|].
    rewrite getitem_first in Hfirst. now injection Hfirst as <-. }
  split.
  { clear Harr. revert arrays Hlen.
    induction freqs as [|f freqs IH]; intros [|a arrays] Hlen;
      simpl in *; try lia; try reflexivity. f_equal. apply IH. lia. }
  intros Hdata.
  assert (Hall : Forall (fun a => length a = length (slice (focus c) r0 r1))
                        arrays).
  { clear Hlen. induction Harr as [|idx a idxs arrays Ha _ IH];
      constructor; [|exact IH].
    unfold take_through_focus in Ha.
    destruct (mapM _ (data c)) as [col|e] eqn:Hcol; [|discriminate].
    simpl in Ha. injection Ha as <-.
    apply length_slice. apply mapM_Forall2, Forall2_length in Hcol.
    now rewrite <- Hcol. }
  clear Harr. revert freqs Hlen.
  induction Hall as [|a arrays Ha _ IH]; intros [|f freqs] Hlen;
    simpl in *; try lia; constructor; [exact Ha | apply IH; lia].
Qed.

Lemma plot_thrufocus_window_witness :
  StronglySorted Qcle (focus Fixture.cube_flat)
  /\ plot_thrufocus_singlefield Fixture.cube_flat 0 [of_int 10] (of_int 6)
     = Ok Fixture2.thru0
  /\ xaxis_pts Fixture2.thru0
     = filter (fun f => negb (Qcltb f (- of_int 6)) && Qcltb f (of_int 6))
              (focus Fixture.cube_flat)
  /\ map snd (curves Fixture2.thru0) = [of_int 10].
Proof.
  assert (H1 : StronglySorted Qcle (focus Fixture.cube_flat))
    by (repeat constructor; vm_compute; discriminate).
  assert (H2 : plot_thrufocus_singlefield Fixture.cube_flat 0 [of_int 10]
                 (of_int 6) = Ok Fixture2.thru0)
    by (vm_compute; reflexivity).
  split; [exact H1|]. split; [exact H2|].
  destruct (plot_thrufocus_window Fixture.cube_flat 0 [of_int 10] (of_int 6)
              Fixture2.thru0 H1 H2) as (Ha & _ & _ & Hb & _).
  split; [exact Ha | exact Hb].
Defined.

(** *** [from_trioptics_files] before the return request *)

Section FullField.

Context {CO : Collaborators}.

Lemma read_all_fails (pre : list (string * Qc)) (p : string) (a : Qc)
  (post : list (string * Qc)) (e : exn) :
  Forall (fun f => is_ok (read_trioptics_mtf_vs_field (fst f)) = true) pre ->
  read_trioptics_mtf_vs_field p = Raise e ->
  read_all (pre ++ (p, a) :: post) = Raise e.
Proof.
  intros Hpre Hp. induction Hpre as [|[q b] pre Hq _ IH]; simpl.
  - now rewrite Hp.
  - simpl in Hq. destruct (read_trioptics_mtf_vs_field q); [|discriminate].
    simpl. now rewrite IH.
Qed.

(** X14.  Whatever [ret] is, [from_trioptics_files] raises IndexError when
    no path or no azimuth is given, and the reader's error when a file that
    has an azimuth cannot be read and the files before it can. *)
Theorem from_trioptics_files_early_errors :
  forall (paths : list string) (azimuths : list Qc) (upsample : nat)
         (ret : ret_arg),
  (paths = [] \/ azimuths = [] ->
   from_trioptics_files paths azimuths upsample ret = Raise IndexError)
  /\ (forall pre p post e,
        paths = pre ++ p :: post ->
        (length pre < length azimuths)%nat ->
        Forall (fun q => is_ok (read_trioptics_mtf_vs_field q) = true) pre ->
        read_trioptics_mtf_vs_field p = Raise e ->
        from_trioptics_files paths azimuths upsample ret = Raise e).
Proof.
  intros paths azimuths upsample ret. split.
  - intros [-> | ->]; unfold from_trioptics_files, interpolate_fields;
      simpl; [reflexivity|].
    now destruct paths.
  - intros pre p post e -> Hlen Hpre Hp.
    unfold from_trioptics_files, interpolate_fields.
    set (az := map radians azimuths).
    assert (Haz : (length pre < length az)%nat)
      by (unfold az; now rewrite length_map).
    clearbody az. clear Hlen.
    assert (Hsplit : exists a azpost,
              combine (pre ++ p :: post) az
              = combine pre (firstn (length pre) az) ++ (p, a) :: azpost).
    { clear Hpre Hp. revert az Haz.
      induction pre as [|q pre IH]; intros [|a0 az] Haz; simpl in *; try lia.
      - now exists a0, (combine post az).
      - destruct (IH az ltac:(lia)) as (a & azpost & ->).
        now exists a, azpost. }
    destruct Hsplit as (a & azpost & ->).
    rewrite (read_all_fails _ p a azpost e); [reflexivity| |exact Hp].
    clear Hp Haz. revert az.
    induction Hpre as [|q pre Hq _ IH]; intros az; simpl; [constructor|].
    destruct az as [|a0 az]; simpl; constructor; [exact Hq | apply IH].
Qed.

Lemma combine_app_surplus {A B : Type} (l l' : list A) (r : list B) :
  (length r <= length l)%nat -> combine (l ++ l') r = combine l r.
Proof.
  revert r. induction l as [|a l IH]; intros [|b r] H; simpl in *;
    try lia; try reflexivity.
  - now destruct l'.
  - f_equal. apply IH. lia.
Qed.

Lemma combine_surplus_app {A B : Type} (l : list A) (r r' : list B) :
  (length l <= length r)%nat -> combine l (r ++ r') = combine l r.
Proof.
  revert r. induction l as [|a l IH]; intros [|b r] H; simpl in *;
    try lia; try reflexivity.
  f_equal. apply IH. lia.
Qed.

(** X15.  Paths beyond the number of azimuths, and azimuths beyond the
    number of paths, are ignored: the result is that of the paired ones. *)
Theorem from_trioptics_files_surplus :
  forall (paths more_paths : list string) (azimuths more_azimuths : list Qc)
         (upsample : nat) (ret : ret_arg),
  length paths = length azimuths ->
  from_trioptics_files (paths ++ more_paths) azimuths upsample ret
  = from_trioptics_files paths azimuths upsample ret
  /\ from_trioptics_files paths (azimuths ++ more_azimuths) upsample ret
     = from_trioptics_files paths azimuths upsample ret.
Proof.
  intros paths more_paths azimuths more_azimuths upsample ret Hlen.
  unfold from_trioptics_files, interpolate_fields. split.
  - rewrite combine_app_surplus; [reflexivity|]. rewrite length_map. lia.
  - rewrite map_app, combine_surplus_app; [reflexivity|].
    rewrite length_map. lia.
Qed.



End FullField.


Lemma from_trioptics_files_surplus_witness :
  length ["a"; "b"]%string = length [0; of_int 90]
  /\ @from_trioptics_files Fixture.co_mtf (["a"%string; "b"%string] ++ ["c"%string])%list
       [0; of_int 90] 1 (Tuple ["tan"; "sag"]%string)
     = @from_trioptics_files Fixture.co_mtf ["a"; "b"]%string
         [0; of_int 90] 1 (Tuple ["tan"; "sag"]%string).
Proof.
  split; [reflexivity|].
  exact (proj1 (@from_trioptics_files_surplus Fixture.co_mtf
                  ["a"; "b"]%string ["c"]%string [0; of_int 90] [of_int 45]
                  1 (Tuple ["tan"; "sag"]%string) eq_refl)).
Defined.

(** *** The traced focus *)

Lemma this_minus (a b : Qc) : (this (a - b) == this a - this b)%Q.
Proof.
  etransitivity; [exact (Qred_correct _)|].
  apply Qplus_comp; [reflexivity | exact (Qred_correct _)].
Qed.

Lemma mod1_bounds (idx : Qc) : 0 <= mod1 idx /\ mod1 idx <= 1.
Proof.
  unfold mod1, Qcle. rewrite this_minus, this_of_int.
  pose proof (Qfloor_le idx) as Hlo. pose proof (Qlt_floor idx) as Hhi.
  rewrite inject_Z_plus in Hhi.
  change (this 0) with 0%Q. change (this 1) with 1%Q.
  change (inject_Z 1) with 1%Q in Hhi.
  split; lra.
Qed.

Lemma between (lo hi p : Qc) :
  lo <= hi -> 0 <= p -> p <= 1 ->
  lo <= lo + (hi - lo) * p /\ lo + (hi - lo) * p <= hi.
Proof.
  intros Hlh Hp0 Hp1.
  assert (Hd : 0 <= hi - lo).
  { apply Qcle_minus_iff in Hlh. exact Hlh. }
  split.
  - rewrite <- (Qcplus_0_r lo) at 1.
    apply Qcplus_le_compat; [apply Qcle_refl|].
    rewrite <- (Qcmult_0_l p). now apply Qcmult_le_compat_r.
  - replace hi with (lo + 1 * (hi - lo)) at 2 by ring.
    apply Qcplus_le_compat; [apply Qcle_refl|].
    rewrite (Qcmult_comm (hi - lo) p). now apply Qcmult_le_compat_r.
Qed.

Lemma sorted_nth (l : arr1) :
  StronglySorted Qcle l ->
  forall i j, (i <= j < length l)%nat -> nth i l 0 <= nth j l 0.
Proof.
  induction 1 as [|h t Hs IH Hall]; intros i j Hij; simpl in Hij; [lia|].
  destruct i as [|i]; destruct j as [|j]; simpl; try lia.
  - apply Qcle_refl.
  - rewrite Forall_forall in Hall. apply Hall, nth_In. lia.
  - apply IH. lia.
Qed.

Lemma last_nth {A : Type} (l : list A) (d : A) :
  last l d = nth (length l - 1) l d.
Proof.
  induction l as [|a [|b l] IH]; try reflexivity.
  change (last (a :: b :: l) d) with (last (b :: l) d). rewrite IH.
  simpl. now rewrite Nat.sub_0_r.
Qed.

(** Between two samples of an ascending focus axis. *)
Lemma bracket_within (focus : arr1) (l : list nat) :
  StronglySorted Qcle focus ->
  l <> [] -> Forall (fun k => (k < length focus)%nat) l ->
  hd 0 focus <= bracket focus (average l)
  /\ bracket focus (average l) <= last focus 0.
Proof.
  intros Hs Hne Hall.
  destruct (average_brackets _ l Hne Hall) as (H0 & Hfc & HN).
  destruct (mod1_bounds (average l)) as [Hp0 Hp1].
  unfold bracket. fold (mod1 (average l)).
  set (li := Z.to_nat (Qfloor (average l))).
  set (ri := Z.to_nat (Qceiling (average l))).
  assert (Hli : (li <= ri < length focus)%nat) by (unfold li, ri; lia).
  destruct (between (nth li focus 0) (nth ri focus 0) (mod1 (average l))
              (sorted_nth focus Hs li ri Hli) Hp0 Hp1) as [Hlo Hhi].
  split.
  - apply Qcle_trans with (nth li focus 0); [|exact Hlo].
    replace (hd 0 focus) with (nth 0 focus 0) by (now destruct focus).
    apply sorted_nth; [exact Hs | lia].
  - apply Qcle_trans with (nth ri focus 0); [exact Hhi|].
    rewrite last_nth. apply sorted_nth; [exact Hs | lia].
Qed.

Lemma averaged_indices_in_range (c : MTFvFvF) (i : nat) (chans : list nat) :
  cube_shape c -> focus c <> [] ->
  Forall (fun k => (k < length (focus c))%nat)
         (map (fun j => index_of_max (through_focus (data c) i j)) chans).
Proof.
  intros [Hlen _] Hfocus. apply Forall_map, Forall_forall. intros j _.
  rewrite <- Hlen, <- (through_focus_length (data c) i j).
  apply index_of_max_lt. intros H.
  apply (f_equal (@length Qc)) in H. rewrite through_focus_length in H.
  simpl in H. destruct (focus c); [congruence | simpl in Hlen; lia].
Qed.

(** X17.  For 'avg' and 'average' on a cube with the shape of its axes, at
    least one averaged channel and an ascending, non-empty focus axis, the
    trace has one entry per field point and every entry lies between the
    first and the last focus sample. *)
Theorem trace_focus_within_focus_range :
  forall (c : MTFvFvF) (algorithm : string),
  algorithm = "avg"%string \/ algorithm = "average"%string ->
  cube_shape c -> focus c <> [] -> averaged_channels (freq c) <> [] ->
  StronglySorted Qcle (focus c) ->
  exists out,
    trace_focus c algorithm = Ok (out, field c)
    /\ length out = length (field c)
    /\ Forall (fun v => hd 0 (focus c) <= v /\ v <= last (focus c) 0) out.
Proof.
  intros c algorithm Halg Hshape Hfocus Hchan Hsorted.
  exists (trace_focus_average c).
  split; [now apply trace_focus_average_ok|].
  unfold trace_focus_average. split; [now rewrite length_map, length_seq|].
  apply Forall_map, Forall_forall. intros i _. unfold average_index.
  apply bracket_within; [exact Hsorted| |now apply averaged_indices_in_range].
  intros H. apply map_eq_nil in H. contradiction.
Qed.

Lemma trace_focus_within_focus_range_witness :
  ("avg"%string = "avg"%string \/ "avg"%string = "average"%string)
  /\ cube_shape Fixture.cube_flat
  /\ focus Fixture.cube_flat <> []
  /\ averaged_channels (freq Fixture.cube_flat) <> []
  /\ StronglySorted Qcle (focus Fixture.cube_flat)
  /\ exists out,
       trace_focus Fixture.cube_flat "avg"
       = Ok (out, field Fixture.cube_flat)
       /\ Forall (fun v => of_int (-10) <= v /\ v <= of_int 10) out.
Proof.
  assert (H1 : "avg"%string = "avg"%string \/ "avg"%string = "average"%string)
    by (left; reflexivity).
  assert (H2 : cube_shape Fixture.cube_flat)
    by (split; [reflexivity | repeat constructor]).
  assert (H3 : focus Fixture.cube_flat <> []) by discriminate.
  assert (H4 : averaged_channels (freq Fixture.cube_flat) <> [])
    by (vm_compute; discriminate).
  assert (H5 : StronglySorted Qcle (focus Fixture.cube_flat))
    by (repeat constructor; vm_compute; discriminate).
  split; [exact H1|]. split; [exact H2|]. split; [exact H3|].
  split; [exact H4|]. split; [exact H5|].
  destruct (trace_focus_within_focus_range Fixture.cube_flat "avg" H1 H2 H3
              H4 H5) as (out & Hrun & _ & Hin).
  exists out. split; [exact Hrun | exact Hin].
Defined.

(** X18.  When [freq[0] == 0] and there are further channels, 'avg' and
    'average' never read channel 0: two cubes with the same axes whose data
    agree on every other channel have the same trace. *)
Theorem trace_focus_ignores_zero_frequency :
  forall (c c' : MTFvFvF) (algorithm : string),
  algorithm = "avg"%string \/ algorithm = "average"%string ->
  cube_shape c -> cube_shape c' -> focus c <> [] ->
  focus c' = focus c -> field c' = field c -> freq c' = freq c ->
  hd 1 (freq c) = 0 -> (2 <= length (freq c))%nat ->
  (forall i j, (1 <= j)%nat ->
     through_focus (data c') i j = through_focus (data c) i j) ->
  trace_focus c' algorithm = trace_focus c algorithm.
Proof.
  intros c c' algorithm Halg Hshape Hshape' Hfocus Hfo Hfi Hfr Hzero Hlen
         Hsame.
  assert (Hchan : averaged_channels (freq c) = seq 1 (length (freq c) - 1)).
  { destruct (freq c) as [|f0 rest]; [simpl in Hlen; lia|].
    simpl in Hzero. rewrite averaged_channels_cases.
    now destruct (Qc_eq_dec f0 0). }
  assert (Hne : averaged_channels (freq c) <> []).
  { rewrite Hchan. destruct (length (freq c)) as [|[|n]]; try lia.
    discriminate. }
  rewrite (trace_focus_average_ok c algorithm Halg Hshape Hfocus Hne).
  rewrite (trace_focus_average_ok c' algorithm Halg Hshape');
    [|now rewrite Hfo|now rewrite Hfr].
  unfold trace_focus_average, average_index. rewrite Hfo, Hfi, Hfr, Hchan.
  f_equal. f_equal. apply map_ext. intros i. do 2 f_equal.
  apply map_ext_in. intros j Hj. apply in_seq in Hj.
  rewrite Hsame by lia. reflexivity.
Qed.

Lemma trace_focus_ignores_zero_frequency_witness :
  ("average"%string = "avg"%string \/ "average"%string = "average"%string)
  /\ cube_shape Fixture2.cube_zero /\ cube_shape Fixture2.cube_zero'
  /\ hd 1 (freq Fixture2.cube_zero) = 0
  /\ (2 <= length (freq Fixture2.cube_zero))%nat
  /\ data Fixture2.cube_zero' <> data Fixture2.cube_zero
  /\ trace_focus Fixture2.cube_zero' "average"
     = trace_focus Fixture2.cube_zero "average".
Proof.
  assert (H1 : "average"%string = "avg"%string
               \/ "average"%string = "average"%string)
    by (right; reflexivity).
  assert (H2 : cube_shape Fixture2.cube_zero)
    by (split; [reflexivity | repeat constructor]).
  assert (H2' : cube_shape Fixture2.cube_zero')
    by (split; [reflexivity | repeat constructor]).
  assert (H3 : focus Fixture2.cube_zero <> []) by discriminate.
  assert (H4 : hd 1 (freq Fixture2.cube_zero) = 0) by reflexivity.
  assert (H5 : (2 <= length (freq Fixture2.cube_zero))%nat) by apply le_n.
  assert (H6 : forall i j, (1 <= j)%nat ->
            through_focus (data Fixture2.cube_zero') i j
            = through_focus (data Fixture2.cube_zero) i j).
  { intros i j Hj. destruct j as [|j]; [lia|].
    unfold through_focus, at2. simpl.
    destruct i as [|[|i]]; destruct j as [|j]; reflexivity. }
  split; [exact H1|]. split; [exact H2|]. split; [exact H2'|].
  split; [exact H4|]. split; [exact H5|].
  split; [intros H; apply (f_equal (fun d => map this (hd [] (hd [] d)))) in H;
          vm_compute in H; discriminate H|].
  exact (trace_focus_ignores_zero_frequency Fixture2.cube_zero
           Fixture2.cube_zero' "average" H1 H2 H2' H3 eq_refl eq_refl eq_refl
           H4 H5 H6).
Defined.

(** X19.  For 'avg' and 'average': a cube without frequencies raises
    IndexError; one with frequencies but no data raises the ValueError of
    the arg-maximum; one whose only channel is the zero
    frequency raises the ValueError of [floor(nan)]; and one without field
    points returns the empty trace. *)
Theorem trace_focus_degenerate_cube :
  forall (c : MTFvFvF) (algorithm : string),
  algorithm = "avg"%string \/ algorithm = "average"%string ->
  (freq c = [] -> trace_focus c algorithm = Raise IndexError)
  /\ (freq c <> [] -> data c = [] ->
      trace_focus c algorithm
      = Raise (ValueError "attempt to get an arg-reduction of an empty sequence"))
  /\ (cube_shape c -> focus c <> [] -> field c <> [] -> freq c = [0] ->
      trace_focus c algorithm
      = Raise (ValueError "cannot convert float NaN to integer"))
  /\ (cube_shape c -> focus c <> [] -> freq c <> [] -> field c = [] ->
      trace_focus c algorithm = Ok ([], [])).
Proof.
  intros c algorithm Halg.
  assert (Hbranch : trace_focus c algorithm
    = (f0 <~ getitem (freq c) 0 ;;
       avg_idxs <~
         (if Qc_eq_dec f0 0 then
            rmap (fun a => map mean (map (@tl nat) a))
                 (arg_axis0_3d gt_max (data c))
          else rmap (map mean) (arg_axis0_3d gt_max (data c))) ;;
       focus_out <~ mapM (interpolate (focus c)) avg_idxs ;;
       Ok (focus_out, field c))).
  { destruct Halg as [-> | ->]; reflexivity. }
  rewrite Hbranch. clear Hbranch.
  split; [|split; [|split]].
  - intros ->. reflexivity.
  - intros Hfreq ->. destruct (freq c) as [|f0 rest]; [congruence|].
    rewrite getitem_first. cbn [rbind].
    now destruct (Qc_eq_dec f0 0).
  - intros [Hlen Hshape] Hfocus Hfield Hfreq.
    destruct (data c) as [|p planes] eqn:Hdata.
    { destruct (focus c); [congruence | discriminate]. }
    rewrite Hfreq in *. rewrite getitem_first. cbn [rbind].
    destruct (Qc_eq_dec 0 0) as [_|H]; [|congruence].
    rewrite (arg_axis0_3d_cells _ _ p planes Hshape).
    unfold rmap. cbn [rbind]. rewrite !map_map.
    destruct (field c) as [|x0 xs]; [congruence|].
    reflexivity.
  - intros [Hlen Hshape] Hfocus Hfreq Hfield.
    destruct (data c) as [|p planes] eqn:Hdata.
    { destruct (focus c); [congruence | discriminate]. }
    destruct (freq c) as [|f0 rest] eqn:Hf; [congruence|].
    rewrite getitem_first. cbn [rbind].
    rewrite (arg_axis0_3d_cells _ _ p planes Hshape), Hfield.
    now destruct (Qc_eq_dec f0 0).
Qed.

Lemma trace_focus_degenerate_cube_witness :
  ("avg"%string = "avg"%string \/ "avg"%string = "average"%string)
  /\ cube_shape Fixture.cube_dc
  /\ freq Fixture.cube_dc = [0]
  /\ trace_focus Fixture.cube_dc "avg"
     = Raise (ValueError "cannot convert float NaN to integer").
Proof.
  assert (H1 : "avg"%string = "avg"%string \/ "avg"%string = "average"%string)
    by (left; reflexivity).
  assert (H2 : cube_shape Fixture.cube_dc)
    by (split; [reflexivity | repeat constructor]).
  assert (H3 : focus Fixture.cube_dc <> []) by discriminate.
  assert (H4 : field Fixture.cube_dc <> []) by discriminate.
  split; [exact H1|]. split; [exact H2|]. split; [reflexivity|].
  exact (proj1 (proj2 (proj2 (trace_focus_degenerate_cube Fixture.cube_dc
           "avg" H1))) H2 H3 H4 eq_refl).
Defined.

End MtfExtra.
